(** * uart-bluetooth: energy-mode arbiter, event scheduler and I2C state machine

    A shallow embedding of [sleep_routines.c], [scheduler.c] and [i2c.c]
    (with the types of [i2c.h]) and the properties of the design
    specification that concern them.

    Conventions of the embedding:
    - a [uint32_t] is a [Z] in [0, 2^32); arithmetic that can leave the range
      is wrapped with [wrap32] where the C code wraps;
    - an [int] is a [Z] in [[INT_MIN, INT_MAX]]; leaving the range is
      undefined behaviour and ends the run with [Undefined];
    - C functions that mutate file-level statics are computations in a
      state-and-failure monad [M S A] over the statics they touch;
    - [EFM_ASSERT(e)] (em_assert.h, with DEBUG_EFM) parks the processor in
      [assertEFM] for ever when [e] is false: the run ends with [AssertFail];
    - writes to memory-mapped peripheral registers and calls that leave the
      driver are recorded, in program order, in an observation log. *)

From Stdlib Require Import ZArith Lia Bool List.
From stdpp Require Import base list.
Import ListNotations.

Local Open Scope Z_scope.

(** ** Machine integers *)

Definition wrap32 (z : Z) : Z := z mod 2 ^ 32.
Definition INT_MAX : Z := 2 ^ 31 - 1.
Definition INT_MIN : Z := - 2 ^ 31.

(** ** Outcomes and the state-and-failure monad *)

Inductive outcome (S A : Type) : Type :=
| Done (a : A) (s : S)   (* the call returned [a], leaving the statics [s] *)
| AssertFail             (* an EFM_ASSERT failed *)
| Spin                   (* a busy-wait loop that only an interrupt can end *)
| Undefined.             (* undefined behaviour of C *)

Arguments Done {S A} a s.
Arguments AssertFail {S A}.
Arguments Spin {S A}.
Arguments Undefined {S A}.

Definition M (S A : Type) : Type := S -> outcome S A.

Definition ret {S A} (a : A) : M S A := fun s => Done a s.

Definition bind {S A B} (m : M S A) (k : A -> M S B) : M S B :=
  fun s =>
    match m s with
    | Done a s' => k a s'
    | AssertFail => AssertFail
    | Spin => Spin
    | Undefined => Undefined
    end.

Definition get {S} : M S S := fun s => Done s s.
Definition put {S} (s : S) : M S unit := fun _ => Done tt s.
Definition undefined {S A} : M S A := fun _ => Undefined.
Definition spin {S A} : M S A := fun _ => Spin.

Definition EFM_ASSERT {S} (e : bool) : M S unit :=
  fun s => if e then Done tt s else AssertFail.

(** Run a computation over a component [T] of the statics [S]. *)
Definition zoom {S T A} (prj : S -> T) (upd : T -> S -> S) (m : M T A) : M S A :=
  fun s =>
    match m (prj s) with
    | Done a t => Done a (upd t s)
    | AssertFail => AssertFail
    | Spin => Spin
    | Undefined => Undefined
    end.

Declare Scope monad_scope.
Delimit Scope monad_scope with monad.
Notation "'do' x <- m ; k" := (bind m (fun x => k))
  (at level 10, x name, m at level 100, k at level 200) : monad_scope.
Notation "m >> k" := (bind m (fun _ => k))
  (at level 90, right associativity) : monad_scope.
Local Open Scope monad_scope.

(** An [int] result: out of range is signed overflow. *)
Definition int_result {S} (z : Z) : M S Z :=
  if (INT_MIN <=? z) && (z <=? INT_MAX) then ret z else undefined.

(** ** sleep_routines.c *)

(** Modelled from the spec: sleep_routines.h is not among the sources.  The
    energy modes index [lowest_energy_modes] "shallowest to deepest", EM0
    first, as the cascade of [enter_sleep] reads them. *)
Definition EM0 : nat := 0.
Definition EM1 : nat := 1.
Definition EM2 : nat := 2.
Definition EM3 : nat := 3.
Definition EM4 : nat := 4.

(** The low-power transitions of emlib that [enter_sleep] can issue. *)
Inductive emu_call : Type :=
| EMU_EnterEM1
| EMU_EnterEM2 (restore : bool)
| EMU_EnterEM3 (restore : bool).

Module Sleep.

(** [lowest_energy_modes[EM]] as an rvalue and as an lvalue; an index past
    the end of the array is undefined behaviour. *)
Definition load (EM : nat) : M (list Z) Z :=
  fun v => match v !! EM with Some c => Done c v | None => Undefined end.

Definition store (EM : nat) (c : Z) : M (list Z) unit :=
  fun v => match v !! EM with Some _ => Done tt (<[EM:=c]> v) | None => Undefined end.

Section Arbiter.

(** [MAX_ENERGY_MODES] is a macro of sleep_routines.h; the array
    [static int lowest_energy_modes[MAX_ENERGY_MODES]] is a [list Z] of that
    length. *)
Variable MAX_ENERGY_MODES : nat.

(** [for(int i = 0; i < MAX_ENERGY_MODES - 1; i++) lowest_energy_modes[i] = 0;] *)
Fixpoint sleep_open_loop (iterations i : nat) : M (list Z) unit :=
  match iterations with
  | O => ret tt
  | S n => store i 0 >> sleep_open_loop n (S i)
  end.

Definition sleep_open : M (list Z) unit :=
  sleep_open_loop (MAX_ENERGY_MODES - 1) 0.

Definition sleep_block_mode (EM : nat) : M (list Z) unit :=
  do c <- load EM;
  do c' <- int_result (c + 1);
  store EM c' >>
  EFM_ASSERT (c' <? 5).

Definition sleep_unblock_mode (EM : nat) : M (list Z) unit :=
  do c <- load EM;
  do c' <- int_result (c - 1);
  store EM c' >>
  EFM_ASSERT (0 <=? c').

Definition enter_sleep : M (list Z) (option emu_call) :=
  do c0 <- load EM0;
  if 0 <? c0 then ret None else
  do c1 <- load EM1;
  if 0 <? c1 then ret None else
  do c2 <- load EM2;
  if 0 <? c2 then ret (Some EMU_EnterEM1) else
  do c3 <- load EM3;
  if 0 <? c3 then ret (Some (EMU_EnterEM2 true)) else
  ret (Some (EMU_EnterEM3 true)).

(** [while(i < MAX_ENERGY_MODES)]: at most [MAX_ENERGY_MODES - i] rounds. *)
Fixpoint current_block_loop (rounds i : nat) : M (list Z) nat :=
  match rounds with
  | O => ret (MAX_ENERGY_MODES - 1)%nat
  | S n =>
      do c <- load i;
      if c =? 0 then current_block_loop n (S i) else ret i
  end.

Definition current_block_energy_mode : M (list Z) nat :=
  current_block_loop MAX_ENERGY_MODES 0.

End Arbiter.

End Sleep.

(** ** scheduler.c *)

Module Scheduler.

(** The static [unsigned int event_scheduled] is the state. *)

Definition scheduler_open : M Z unit := put 0.

Definition add_scheduled_event (event : Z) : M Z unit :=
  do es <- get; put (Z.lor es event).

Definition remove_scheduled_event (event : Z) : M Z unit :=
  do es <- get; put (Z.land es (wrap32 (Z.lnot event))).

Definition get_scheduled_events : M Z Z := get.

End Scheduler.

(** ** i2c.h *)

(** [#define I2C_EM_BLOCK EM2] *)
Definition I2C_EM_BLOCK : nat := EM2.

(** An [I2C_TypeDef *]: the two controllers of the part, or any other
    address. *)
Inductive I2C_TypeDef : Type := I2C0 | I2C1 | I2C_elsewhere.

Inductive OPERATION_MODE : Type := write | read.

Definition OPERATION_MODE_value (m : OPERATION_MODE) : Z :=
  match m with write => 0 | read => 1 end.

Inductive DEFINED_STATES : Type :=
| initialize_device_write
| write_desired_register
| initialize_device_read
| write_data
| recieve_data
| stop.

(** The field [data] is the 32-bit word the pointer [uint32_t *data] refers
    to: the instance owns that word for the duration of a transaction. *)
Record I2C_STATE_MACHINE : Type := {
  i2cx : I2C_TypeDef;
  device_address : Z;
  available : bool;
  mode : OPERATION_MODE;
  num_of_data_bytes : Z;
  desired_register_address : Z;
  data : Z;
  I2C_CB : Z;
  current_state : DEFINED_STATES
}.

Definition with_available (b : bool) (m : I2C_STATE_MACHINE) :=
  {| i2cx := i2cx m; device_address := device_address m; available := b;
     mode := mode m; num_of_data_bytes := num_of_data_bytes m;
     desired_register_address := desired_register_address m;
     data := data m; I2C_CB := I2C_CB m; current_state := current_state m |}.

Definition with_num_of_data_bytes (n : Z) (m : I2C_STATE_MACHINE) :=
  {| i2cx := i2cx m; device_address := device_address m;
     available := available m; mode := mode m; num_of_data_bytes := n;
     desired_register_address := desired_register_address m;
     data := data m; I2C_CB := I2C_CB m; current_state := current_state m |}.

Definition with_data (d : Z) (m : I2C_STATE_MACHINE) :=
  {| i2cx := i2cx m; device_address := device_address m;
     available := available m; mode := mode m;
     num_of_data_bytes := num_of_data_bytes m;
     desired_register_address := desired_register_address m;
     data := d; I2C_CB := I2C_CB m; current_state := current_state m |}.

Definition with_current_state (st : DEFINED_STATES) (m : I2C_STATE_MACHINE) :=
  {| i2cx := i2cx m; device_address := device_address m;
     available := available m; mode := mode m;
     num_of_data_bytes := num_of_data_bytes m;
     desired_register_address := desired_register_address m;
     data := data m; I2C_CB := I2C_CB m; current_state := st |}.

(** ** i2c.c *)

(** Commands the driver writes to the CMD register (em_i2c.h). *)
Inductive I2C_CMD : Type :=
| I2C_CMD_START
| I2C_CMD_STOP
| I2C_CMD_ACK
| I2C_CMD_NACK.

(** What the driver does that is visible outside its own statics. *)
Inductive observation : Type :=
| CMD_written (i2c : I2C_TypeDef) (c : I2C_CMD)
| TXDATA_written (i2c : I2C_TypeDef) (v : Z)
| event_added (event : Z).

(** The statics of the three modules, and the observation log (most recent
    entry last). *)
Record statics : Type := {
  lowest_energy_modes : list Z;
  event_scheduled : Z;
  i2c0_state : I2C_STATE_MACHINE;
  i2c1_state : I2C_STATE_MACHINE;
  observed : list observation
}.

Definition with_lowest_energy_modes (v : list Z) (s : statics) :=
  {| lowest_energy_modes := v; event_scheduled := event_scheduled s;
     i2c0_state := i2c0_state s; i2c1_state := i2c1_state s;
     observed := observed s |}.

Definition with_event_scheduled (e : Z) (s : statics) :=
  {| lowest_energy_modes := lowest_energy_modes s; event_scheduled := e;
     i2c0_state := i2c0_state s; i2c1_state := i2c1_state s;
     observed := observed s |}.

Definition with_i2c0_state (m : I2C_STATE_MACHINE) (s : statics) :=
  {| lowest_energy_modes := lowest_energy_modes s;
     event_scheduled := event_scheduled s;
     i2c0_state := m; i2c1_state := i2c1_state s; observed := observed s |}.

Definition with_i2c1_state (m : I2C_STATE_MACHINE) (s : statics) :=
  {| lowest_energy_modes := lowest_energy_modes s;
     event_scheduled := event_scheduled s;
     i2c0_state := i2c0_state s; i2c1_state := m; observed := observed s |}.

Definition with_observed (l : list observation) (s : statics) :=
  {| lowest_energy_modes := lowest_energy_modes s;
     event_scheduled := event_scheduled s;
     i2c0_state := i2c0_state s; i2c1_state := i2c1_state s; observed := l |}.

(** An [I2C_STATE_MACHINE *] is [&i2c0_state] or [&i2c1_state]. *)
Inductive sm_pointer : Type := ref_i2c0_state | ref_i2c1_state.

Definition pointee (p : sm_pointer) (s : statics) : I2C_STATE_MACHINE :=
  match p with ref_i2c0_state => i2c0_state s | ref_i2c1_state => i2c1_state s end.

Definition with_pointee (p : sm_pointer) (m : I2C_STATE_MACHINE) (s : statics) :=
  match p with
  | ref_i2c0_state => with_i2c0_state m s
  | ref_i2c1_state => with_i2c1_state m s
  end.

Module I2C.

Definition observe (o : observation) : M statics unit :=
  fun s => Done tt (with_observed (observed s ++ [o]) s).

(** [*i2c_sm] read, and [i2c_sm->field = ...] as an update of the pointee. *)
Definition deref (i2c_sm : sm_pointer) : M statics I2C_STATE_MACHINE :=
  fun s => Done (pointee i2c_sm s) s.

Definition assign (i2c_sm : sm_pointer)
    (f : I2C_STATE_MACHINE -> I2C_STATE_MACHINE) : M statics unit :=
  fun s => Done tt (with_pointee i2c_sm (f (pointee i2c_sm s)) s).

(** Calls into the other two modules. *)
Definition sleep_block_mode (EM : nat) : M statics unit :=
  zoom lowest_energy_modes with_lowest_energy_modes (Sleep.sleep_block_mode EM).

Definition sleep_unblock_mode (EM : nat) : M statics unit :=
  zoom lowest_energy_modes with_lowest_energy_modes (Sleep.sleep_unblock_mode EM).

Definition add_scheduled_event (event : Z) : M statics unit :=
  observe (event_added event) >>
  zoom event_scheduled with_event_scheduled (Scheduler.add_scheduled_event event).

(** A shift count of 32 or more on a 32-bit operand is undefined. *)
Definition shift_count {S} (k : Z) : M S Z :=
  if k <? 32 then ret k else undefined.

Definition Ack_Func (i2c_sm : sm_pointer) : M statics unit :=
  do sm <- deref i2c_sm;
  match current_state sm with
  | initialize_device_write =>
      observe (TXDATA_written (i2cx sm) (desired_register_address sm)) >>
      match mode sm with
      | read => assign i2c_sm (with_current_state write_desired_register)
      | write => assign i2c_sm (with_current_state write_data)
      end
  | write_desired_register =>
      observe (CMD_written (i2cx sm) I2C_CMD_START) >>
      observe (TXDATA_written (i2cx sm)
                 (Z.lor (wrap32 (Z.shiftl (device_address sm) 1))
                        (OPERATION_MODE_value read))) >>
      assign i2c_sm (with_current_state initialize_device_read)
  | initialize_device_read => ret tt
  | write_data =>
      let n := wrap32 (num_of_data_bytes sm - 1) in
      assign i2c_sm (with_num_of_data_bytes n) >>
      do k <- shift_count (wrap32 (8 * n));
      observe (TXDATA_written (i2cx sm) (Z.land (Z.shiftr (data sm) k) 255)) >>
      if n =? 0 then
        observe (CMD_written (i2cx sm) I2C_CMD_STOP) >>
        assign i2c_sm (with_current_state recieve_data)
      else ret tt
  | recieve_data => ret tt
  | stop => EFM_ASSERT false
  end.

(** [RXDATA] is the value read from the receive register.  [0xff << k] is an
    [int] shift (for [k = 24] into the sign bit, which the compiler of the
    project, GCC, defines as two's complement); its complement is converted
    to [uint32_t] by the [&=], hence the [wrap32]. *)
Definition Rxdatav_Func (i2c_sm : sm_pointer) (RXDATA : Z) : M statics unit :=
  do sm <- deref i2c_sm;
  match current_state sm with
  | initialize_device_write => EFM_ASSERT false
  | write_desired_register => EFM_ASSERT false
  | initialize_device_read =>
      let n := wrap32 (num_of_data_bytes sm - 1) in
      assign i2c_sm (with_num_of_data_bytes n) >>
      do k <- shift_count (wrap32 (8 * n));
      let cleared := Z.land (data sm) (wrap32 (Z.lnot (Z.shiftl 255 k))) in
      assign i2c_sm (with_data cleared) >>
      assign i2c_sm (with_data (Z.lor cleared (wrap32 (Z.shiftl RXDATA k)))) >>
      if 0 <? n then
        observe (CMD_written (i2cx sm) I2C_CMD_ACK)
      else
        observe (CMD_written (i2cx sm) I2C_CMD_NACK) >>
        observe (CMD_written (i2cx sm) I2C_CMD_STOP) >>
        assign i2c_sm (with_current_state recieve_data)
  | write_data => EFM_ASSERT false
  | recieve_data => EFM_ASSERT false
  | stop => EFM_ASSERT false
  end.

Definition Stop_Func (i2c_sm : sm_pointer) : M statics unit :=
  do sm <- deref i2c_sm;
  match current_state sm with
  | initialize_device_write => EFM_ASSERT false
  | write_desired_register => EFM_ASSERT false
  | initialize_device_read => EFM_ASSERT false
  | recieve_data =>
      sleep_unblock_mode I2C_EM_BLOCK >>
      assign i2c_sm (with_available true) >>
      assign i2c_sm (with_current_state initialize_device_write) >>
      add_scheduled_event (I2C_CB sm)
  | write_data => EFM_ASSERT false
  | stop => EFM_ASSERT false
  end.

(** [STATE_is_idle] is the outcome of the register test
    [(i2c->STATE & _I2C_STATE_STATE_MASK) == I2C_STATE_STATE_IDLE]; [data] is
    the content of the word the caller's pointer refers to. *)
Definition i2c_start (i2c : I2C_TypeDef) (STATE_is_idle : bool)
    (device_address : Z) (mode : OPERATION_MODE) (data : Z)
    (bytes_expected : Z) (desired_register_address : Z) (app_cb : Z)
  : M statics unit :=
  match
    match i2c with
    | I2C0 => Some ref_i2c0_state
    | I2C1 => Some ref_i2c1_state
    | I2C_elsewhere => None
    end
  with
  | None => EFM_ASSERT false
  | Some i2c_local_sm =>
      do sm <- deref i2c_local_sm;
      if negb (available sm) then spin else
      EFM_ASSERT STATE_is_idle >>
      sleep_block_mode I2C_EM_BLOCK >>
      assign i2c_local_sm (with_available false) >>
      assign i2c_local_sm (fun _ =>
        {| i2cx := i2c; device_address := device_address; available := false;
           mode := mode; num_of_data_bytes := bytes_expected;
           desired_register_address := desired_register_address;
           data := data; I2C_CB := app_cb;
           current_state := initialize_device_write |}) >>
      observe (CMD_written i2c I2C_CMD_START) >>
      observe (TXDATA_written i2c
                 (Z.lor (wrap32 (Z.shiftl device_address 1))
                        (OPERATION_MODE_value write)))
  end.


(** [int_flag = I2Cx->IF & I2Cx->IEN], seen through the three tests the
    handlers make of it. *)
Record int_flag_bits : Type := {
  I2C_IF_ACK : bool;
  I2C_IF_RXDATAV : bool;
  I2C_IF_MSTOP : bool
}.

Definition IRQHandler (i2c_sm : sm_pointer) (int_flag : int_flag_bits)
    (RXDATA : Z) : M statics unit :=
  (if I2C_IF_ACK int_flag then Ack_Func i2c_sm else ret tt) >>
  (if I2C_IF_RXDATAV int_flag then Rxdatav_Func i2c_sm RXDATA else ret tt) >>
  (if I2C_IF_MSTOP int_flag then Stop_Func i2c_sm else ret tt).

Definition I2C0_IRQHandler := IRQHandler ref_i2c0_state.
Definition I2C1_IRQHandler := IRQHandler ref_i2c1_state.

End I2C.

(** ** Vocabulary of the properties *)

(** *** Call sequences on the arbiter *)

Inductive arbiter_call : Type :=
| block (EM : nat)
| unblock (EM : nat).

Definition perform (c : arbiter_call) : M (list Z) unit :=
  match c with
  | block EM => Sleep.sleep_block_mode EM
  | unblock EM => Sleep.sleep_unblock_mode EM
  end.

Fixpoint perform_all (cs : list arbiter_call) : M (list Z) unit :=
  match cs with
  | [] => ret tt
  | c :: cs' => perform c >> perform_all cs'
  end.

Definition level_of (c : arbiter_call) : nat :=
  match c with block EM => EM | unblock EM => EM end.

(** Blocks of level [EM] minus unblocks of level [EM] in [cs]. *)
Fixpoint outstanding (EM : nat) (cs : list arbiter_call) : Z :=
  match cs with
  | [] => 0
  | block l :: cs' => (if Nat.eqb l EM then 1 else 0) + outstanding EM cs'
  | unblock l :: cs' => outstanding EM cs' - (if Nat.eqb l EM then 1 else 0)
  end.

(** Every level that occurs is blocked as often as it is unblocked. *)
Definition balanced (cs : list arbiter_call) : bool :=
  forallb (fun c => outstanding (level_of c) cs =? 0) cs.

(** Counters as the arbiter keeps them while no assertion has failed. *)
Definition counter_ok (c : Z) : Prop := 0 <= c < 5.

(** Some prefix of [cs] unblocks [EM] more often than the votes in [v] and
    the blocks of the prefix allow. *)
Definition over_unblocked (v : list Z) (cs : list arbiter_call) : Prop :=
  exists (n EM : nat) (c : Z),
    v !! EM = Some c /\ c + outstanding EM (take n cs) < 0.

(** [r] is what the specification asks of [currentDeepestAllowed]: the
    shallowest level of [v] with a nonzero counter, or the deepest level
    when there is none. *)
Definition shallowest_blocked (MAX_ENERGY_MODES : nat) (v : list Z) (r : nat)
  : Prop :=
  ((r < length v)%nat /\
   (exists c, v !! r = Some c /\ c <> 0) /\
   forall j : nat, (j < r)%nat -> v !! j = Some 0)
  \/
  ((forall j : nat, (j < length v)%nat -> v !! j = Some 0) /\
   r = (MAX_ENERGY_MODES - 1)%nat).

(** Sleep depth of an emlib transition. *)
Definition emu_depth (c : emu_call) : nat :=
  match c with
  | EMU_EnterEM1 => 1
  | EMU_EnterEM2 _ => 2
  | EMU_EnterEM3 _ => 3
  end.

(** *** The consumer of the scheduler *)

(** The consumer clears the events it has serviced, one call each. *)
Fixpoint clear_all (events : list Z) : M Z unit :=
  match events with
  | [] => ret tt
  | e :: events' => Scheduler.remove_scheduled_event e >> clear_all events'
  end.

(** Every pending bit of [pending] belongs to some serviced event. *)
Definition serviced (pending : Z) (events : list Z) : Prop :=
  Z.land pending (Z.lnot (fold_right Z.lor 0 events)) = 0.

(** *** Sub-events of the bus *)

Inductive sub_event : Type :=
| AddressAcknowledged
| ByteAvailable (byte : Z)
| StopConditionObserved.

Definition deliver (i2c_sm : sm_pointer) (e : sub_event) : M statics unit :=
  match e with
  | AddressAcknowledged => I2C.Ack_Func i2c_sm
  | ByteAvailable byte => I2C.Rxdatav_Func i2c_sm byte
  | StopConditionObserved => I2C.Stop_Func i2c_sm
  end.

Fixpoint deliver_all (i2c_sm : sm_pointer) (es : list sub_event) : M statics unit :=
  match es with
  | [] => ret tt
  | e :: es' => deliver i2c_sm e >> deliver_all i2c_sm es'
  end.

(** The interrupt that raises exactly the flag of one sub-event. *)
Definition int_flag_of (e : sub_event) : I2C.int_flag_bits :=
  match e with
  | AddressAcknowledged =>
      {| I2C.I2C_IF_ACK := true; I2C.I2C_IF_RXDATAV := false; I2C.I2C_IF_MSTOP := false |}
  | ByteAvailable _ =>
      {| I2C.I2C_IF_ACK := false; I2C.I2C_IF_RXDATAV := true; I2C.I2C_IF_MSTOP := false |}
  | StopConditionObserved =>
      {| I2C.I2C_IF_ACK := false; I2C.I2C_IF_RXDATAV := false; I2C.I2C_IF_MSTOP := true |}
  end.

Definition RXDATA_of (e : sub_event) : Z :=
  match e with ByteAvailable byte => byte | _ => 0 end.

(** The state machine a controller address selects. *)
Definition controller (i2c_sm : sm_pointer) : I2C_TypeDef :=
  match i2c_sm with ref_i2c0_state => I2C0 | ref_i2c1_state => I2C1 end.

(** *** Bytes of the data word *)

(** Byte [i] of a word, byte 0 the least significant. *)
Definition byte_of (w : Z) (i : Z) : Z := Z.land (Z.shiftr w (8 * i)) 255.

(** The value of a byte sequence sent or received most significant byte
    first. *)
Fixpoint be_value (bs : list Z) : Z :=
  match bs with
  | [] => 0
  | b :: bs' => b * 256 ^ Z.of_nat (length bs') + be_value bs'
  end.

Definition is_byte (b : Z) : Prop := 0 <= b < 256.

(** The word after byte [n] of [d] has been replaced by [b], as
    [Rxdatav_Func] computes it. *)
Definition store_byte (d n b : Z) : Z :=
  Z.lor (Z.land d (wrap32 (Z.lnot (Z.shiftl 255 (8 * n)))))
        (wrap32 (Z.shiftl b (8 * n))).

(** The word after the bytes [bs] have been received into it, the first
    into the highest of the [length bs] low bytes. *)
Fixpoint receive_into (d : Z) (bs : list Z) : Z :=
  match bs with
  | [] => d
  | b :: bs' => receive_into (store_byte d (Z.of_nat (length bs')) b) bs'
  end.

(** Sub-events of both controllers, interleaved. *)
Fixpoint deliver_interleaved (es : list (sm_pointer * sub_event))
  : M statics unit :=
  match es with
  | [] => ret tt
  | (i2c_sm, e) :: es' => deliver i2c_sm e >> deliver_interleaved es'
  end.

(** The statics as the C start-up code leaves them (all zero), with five
    energy modes. *)
Definition zeroed_state_machine : I2C_STATE_MACHINE :=
  {| i2cx := I2C_elsewhere; device_address := 0; available := false;
     mode := write; num_of_data_bytes := 0; desired_register_address := 0;
     data := 0; I2C_CB := 0; current_state := initialize_device_write |}.

Definition power_on : statics :=
  {| lowest_energy_modes := [0; 0; 0; 0; 0]; event_scheduled := 0;
     i2c0_state := zeroed_state_machine; i2c1_state := zeroed_state_machine;
     observed := [] |}.

(** The statics once [i2c_open(I2C1, ...)] has run on them. *)
Definition i2c1_opened : statics :=
  with_i2c1_state (with_available true zeroed_state_machine) power_on.

(** [s'] differs from [s] at most in the state machine [i2c_sm] points to
    and in the log. *)
Definition same_elsewhere (i2c_sm : sm_pointer) (s s' : statics) : Prop :=
  lowest_energy_modes s' = lowest_energy_modes s /\
  event_scheduled s' = event_scheduled s /\
  forall q : sm_pointer, q <> i2c_sm -> pointee q s' = pointee q s.

(** The events posted to the scheduler in a stretch of the log. *)
Fixpoint events_added (l : list observation) : list Z :=
  match l with
  | [] => []
  | event_added e :: l' => e :: events_added l'
  | _ :: l' => events_added l'
  end.

(** *** Vocabulary of the further properties *)

(** Whether the assertion of a call passes on a counter that holds [c], and
    the value the call leaves in the counter. *)
Definition passes (a : arbiter_call) (c : Z) : bool :=
  match a with
  | block _ => c + 1 <? 5
  | unblock _ => 0 <=? c - 1
  end.

Definition counter_after (a : arbiter_call) (c : Z) : Z :=
  match a with
  | block _ => c + 1
  | unblock _ => c - 1
  end.

(** Interrupt handlers post their events one call each. *)
Fixpoint post_all (events : list Z) : M Z unit :=
  match events with
  | [] => ret tt
  | e :: events' => Scheduler.add_scheduled_event e >> post_all events'
  end.

(** The [n] low bytes of a word, most significant first. *)
Fixpoint bytes_be (d : Z) (n : nat) : list Z :=
  match n with
  | O => []
  | S k => byte_of d (Z.of_nat k) :: bytes_be d k
  end.

(** ** leuart.c, and [ble_write] of ble.c *)

(** leuart.h is not among the sources.  The fields of
    [LEUART_STATE_MACHINE] and the two states are those the functions of
    leuart.c use (the state [end] is [end_UART] here, [end] being reserved);
    [count] and [length] are taken to be [uint32_t] like [string_len]; the
    macro [LEUART_TX_EM] is a parameter; the array [data] is a list of as
    many characters as the array has elements. *)

Inductive LEUART_TypeDef : Type := LEUART0 | LEUART_elsewhere.

Inductive LEUART_STATES : Type := write_UART | end_UART.

(** The two interrupt enables the driver turns on and off. *)
Inductive LEUART_IEN_bit : Type := LEUART_IEN_TXBL | LEUART_IEN_TXC.

(** What the driver does that is visible outside its statics:
    [leuart->TXDATA = v], [leuart->IEN |= bit], [leuart->IEN &= ~bit] and
    the events it posts. *)
Inductive leuart_observation : Type :=
| LEUART_TXDATA_written (leuart : LEUART_TypeDef) (v : Z)
| LEUART_IEN_set (leuart : LEUART_TypeDef) (bit : LEUART_IEN_bit)
| LEUART_IEN_cleared (leuart : LEUART_TypeDef) (bit : LEUART_IEN_bit)
| leuart_event_added (event : Z).

(** The characters of the C string that starts with the bytes [l] (and is
    terminated after them at the latest): those before the first NUL. *)
Fixpoint c_string (l : list Z) : list Z :=
  match l with
  | [] => []
  | ch :: l' => if ch =? 0 then [] else ch :: c_string l'
  end.

Definition strlen (l : list Z) : Z := Z.of_nat (length (c_string l)).

Module LEUART.

Record LEUART_STATE_MACHINE : Type := {
  leuart : LEUART_TypeDef;
  state : LEUART_STATES;
  count : Z;
  length : Z;
  data : list Z;
  leuart_cb : Z;
  available : bool
}.

(** The statics of leuart.c with those of the arbiter and the scheduler, and
    the observation log. *)
Record statics : Type := {
  lowest_energy_modes : list Z;
  event_scheduled : Z;
  rx_done_evt : Z;
  tx_done_evt : Z;
  leuart0_state_machine : LEUART_STATE_MACHINE;
  observed : list leuart_observation
}.

Definition with_lowest_energy_modes (v : list Z) (s : statics) :=
  {| lowest_energy_modes := v; event_scheduled := event_scheduled s;
     rx_done_evt := rx_done_evt s; tx_done_evt := tx_done_evt s;
     leuart0_state_machine := leuart0_state_machine s;
     observed := observed s |}.

Definition with_event_scheduled (e : Z) (s : statics) :=
  {| lowest_energy_modes := lowest_energy_modes s; event_scheduled := e;
     rx_done_evt := rx_done_evt s; tx_done_evt := tx_done_evt s;
     leuart0_state_machine := leuart0_state_machine s;
     observed := observed s |}.

Definition with_leuart0_state_machine (m : LEUART_STATE_MACHINE) (s : statics) :=
  {| lowest_energy_modes := lowest_energy_modes s;
     event_scheduled := event_scheduled s;
     rx_done_evt := rx_done_evt s; tx_done_evt := tx_done_evt s;
     leuart0_state_machine := m; observed := observed s |}.

Definition with_observed (l : list leuart_observation) (s : statics) :=
  {| lowest_energy_modes := lowest_energy_modes s;
     event_scheduled := event_scheduled s;
     rx_done_evt := rx_done_evt s; tx_done_evt := tx_done_evt s;
     leuart0_state_machine := leuart0_state_machine s; observed := l |}.

Definition with_state (st : LEUART_STATES) (m : LEUART_STATE_MACHINE) :=
  {| leuart := leuart m; state := st; count := count m; length := length m;
     data := data m; leuart_cb := leuart_cb m; available := available m |}.

Definition with_count (n : Z) (m : LEUART_STATE_MACHINE) :=
  {| leuart := leuart m; state := state m; count := n; length := length m;
     data := data m; leuart_cb := leuart_cb m; available := available m |}.

Definition with_available (b : bool) (m : LEUART_STATE_MACHINE) :=
  {| leuart := leuart m; state := state m; count := count m;
     length := length m; data := data m; leuart_cb := leuart_cb m;
     available := b |}.

Definition observe (o : leuart_observation) : M statics unit :=
  fun s => Done tt (with_observed (observed s ++ [o]) s).

(** [leuart0_state_machine] read, and an assignment to some of its fields. *)
Definition deref : M statics LEUART_STATE_MACHINE :=
  fun s => Done (leuart0_state_machine s) s.

Definition assign (f : LEUART_STATE_MACHINE -> LEUART_STATE_MACHINE)
  : M statics unit :=
  fun s => Done tt (with_leuart0_state_machine (f (leuart0_state_machine s)) s).

Definition sleep_block_mode (EM : nat) : M statics unit :=
  zoom lowest_energy_modes with_lowest_energy_modes (Sleep.sleep_block_mode EM).

Definition sleep_unblock_mode (EM : nat) : M statics unit :=
  zoom lowest_energy_modes with_lowest_energy_modes (Sleep.sleep_unblock_mode EM).

Definition add_scheduled_event (event : Z) : M statics unit :=
  observe (leuart_event_added event) >>
  zoom event_scheduled with_event_scheduled (Scheduler.add_scheduled_event event).

(** [IF_TXBL] is the TXBL bit of [leuart->IF] as the polling loop reads it:
    while it is clear the loop goes on. *)
Definition leuart_app_transmit_byte (leuart : LEUART_TypeDef) (IF_TXBL : bool)
    (data_out : Z) : M statics unit :=
  if IF_TXBL then observe (LEUART_TXDATA_written leuart data_out) else spin.

Section Driver.

Variable LEUART_TX_EM : nat.

(** [leuart_sm->data[leuart_sm->count]], converted to the [uint8_t] of the
    parameter [data_out]. *)
Definition data_at_count (sm : LEUART_STATE_MACHINE) : M statics Z :=
  match data sm !! Z.to_nat (count sm) with
  | Some ch => ret (ch mod 256)
  | None => undefined
  end.

Definition write_data_func (IF_TXBL : bool) : M statics unit :=
  do sm <- deref;
  match state sm with
  | write_UART =>
      if negb (count sm =? length sm) then
        do ch <- data_at_count sm;
        leuart_app_transmit_byte (leuart sm) IF_TXBL ch >>
        assign (with_count (wrap32 (count sm + 1)))
      else
        observe (LEUART_IEN_cleared (leuart sm) LEUART_IEN_TXBL) >>
        assign (with_state end_UART) >>
        observe (LEUART_IEN_set (leuart sm) LEUART_IEN_TXC)
  | end_UART => EFM_ASSERT false
  end.

Definition stop_func : M statics unit :=
  do sm <- deref;
  match state sm with
  | write_UART => EFM_ASSERT false
  | end_UART =>
      observe (LEUART_IEN_cleared (leuart sm) LEUART_IEN_TXC) >>
      assign (with_state write_UART) >>
      assign (with_available true) >>
      sleep_unblock_mode LEUART_TX_EM >>
      add_scheduled_event (leuart_cb sm)
  end.

(** [strcpy(leuart0_state_machine.data, string)]: the characters of the
    string and the terminating NUL; past the end of the array it is
    undefined. *)
Definition strcpy_data (string : list Z) : M statics unit :=
  do sm <- deref;
  let copied := c_string string ++ [0] in
  if (List.length copied <=? List.length (data sm))%nat then
    assign (fun m =>
      {| leuart := leuart m; state := state m; count := count m;
         length := length m;
         data := copied ++ drop (List.length copied) (data m);
         leuart_cb := leuart_cb m; available := available m |})
  else undefined.

(** [SYNCBUSY] is the value the loop [while(leuart->SYNCBUSY);] reads. *)
Definition leuart_start (leuart : LEUART_TypeDef) (SYNCBUSY : bool)
    (string : list Z) (string_len : Z) : M statics unit :=
  do sm <- deref;
  if negb (available sm) then spin else
  if SYNCBUSY then spin else
  assign (with_available false) >>
  sleep_block_mode LEUART_TX_EM >>
  do s <- get;
  assign (fun m =>
    {| leuart := leuart; state := write_UART; count := 0;
       length := string_len; data := data m; leuart_cb := tx_done_evt s;
       available := available m |}) >>
  strcpy_data string >>
  observe (LEUART_IEN_set leuart LEUART_IEN_TXBL).

(** The two tests of [int_flag = LEUART0->IF & LEUART0->IEN]. *)
Definition LEUART0_IRQHandler (LEUART_IF_TXBL LEUART_IF_TXC : bool)
    (IF_TXBL : bool) : M statics unit :=
  (if LEUART_IF_TXBL then write_data_func IF_TXBL else ret tt) >>
  (if LEUART_IF_TXC then stop_func else ret tt).

(** ble.c: [size_t length = strlen(string); leuart_start(LEUART0, string,
    length);] *)
Definition ble_write (SYNCBUSY : bool) (string : list Z) : M statics unit :=
  leuart_start LEUART0 SYNCBUSY string (wrap32 (strlen string)).

(** Interrupts with the TXBL flag alone, the transmit buffer being empty. *)
Fixpoint TXBL_interrupts (n : nat) : M statics unit :=
  match n with
  | O => ret tt
  | S n' => LEUART0_IRQHandler true false true >> TXBL_interrupts n'
  end.

End Driver.

End LEUART.

(** * Properties *)

(** ** The arbiter *)

Section ArbiterFacts.

Implicit Types (v w : list Z) (EM i j : nat) (c : Z).

Lemma load_Some EM c v : v !! EM = Some c -> Sleep.load EM v = Done c v.
Proof. intros H. unfold Sleep.load. now rewrite H. Qed.

Lemma store_Some EM c c' v :
  v !! EM = Some c -> Sleep.store EM c' v = Done tt (<[EM:=c']> v).
Proof. intros H. unfold Sleep.store. now rewrite H. Qed.

Lemma int_result_in_range {S} (z : Z) (s : S) :
  INT_MIN <= z <= INT_MAX -> int_result z s = Done z s.
Proof.
  intros [Hlo Hhi]. unfold int_result.
  apply Z.leb_le in Hlo. apply Z.leb_le in Hhi. now rewrite Hlo, Hhi.
Qed.

Ltac int_range :=
  unfold INT_MIN, INT_MAX in *; change (2 ^ 31) with 2147483648 in *; lia.

Lemma sleep_block_mode_ok EM c v :
  v !! EM = Some c -> 0 <= c < 4 ->
  Sleep.sleep_block_mode EM v = Done tt (<[EM:=c + 1]> v).
Proof.
  intros Hl Hc. unfold Sleep.sleep_block_mode, bind.
  rewrite (load_Some _ _ _ Hl). rewrite int_result_in_range by int_range.
  rewrite (store_Some _ _ _ _ Hl). unfold EFM_ASSERT.
  destruct (Z.ltb_spec (c + 1) 5); [reflexivity | lia].
Qed.

Lemma sleep_block_mode_full EM c v :
  v !! EM = Some c -> 4 <= c < INT_MAX ->
  Sleep.sleep_block_mode EM v = AssertFail.
Proof.
  intros Hl Hc. unfold Sleep.sleep_block_mode, bind.
  rewrite (load_Some _ _ _ Hl). rewrite int_result_in_range by int_range.
  rewrite (store_Some _ _ _ _ Hl). unfold EFM_ASSERT.
  destruct (Z.ltb_spec (c + 1) 5); [lia | reflexivity].
Qed.

Lemma sleep_unblock_mode_ok EM c v :
  v !! EM = Some c -> 0 < c <= INT_MAX ->
  Sleep.sleep_unblock_mode EM v = Done tt (<[EM:=c - 1]> v).
Proof.
  intros Hl Hc. unfold Sleep.sleep_unblock_mode, bind.
  rewrite (load_Some _ _ _ Hl). rewrite int_result_in_range by int_range.
  rewrite (store_Some _ _ _ _ Hl). unfold EFM_ASSERT.
  destruct (Z.leb_spec 0 (c - 1)); [reflexivity | lia].
Qed.

Lemma sleep_unblock_mode_underflow EM c v :
  v !! EM = Some c -> INT_MIN < c <= 0 ->
  Sleep.sleep_unblock_mode EM v = AssertFail.
Proof.
  intros Hl Hc. unfold Sleep.sleep_unblock_mode, bind.
  rewrite (load_Some _ _ _ Hl). rewrite int_result_in_range by int_range.
  rewrite (store_Some _ _ _ _ Hl). unfold EFM_ASSERT.
  destruct (Z.leb_spec 0 (c - 1)); [lia | reflexivity].
Qed.

(** What a call that returns has done. *)
Lemma sleep_block_mode_Done EM v v' :
  Sleep.sleep_block_mode EM v = Done tt v' ->
  exists c, v !! EM = Some c /\ c + 1 < 5 /\ v' = <[EM:=c + 1]> v.
Proof.
  unfold Sleep.sleep_block_mode, bind, Sleep.load, Sleep.store, int_result,
    EFM_ASSERT, ret, undefined.
  destruct (v !! EM) as [c|] eqn:Hl; [|discriminate].
  destruct ((INT_MIN <=? c + 1) && (c + 1 <=? INT_MAX)); [|discriminate].
  rewrite Hl.
  destruct (Z.ltb_spec (c + 1) 5); [|discriminate].
  intros [= <-]. now exists c.
Qed.

Lemma sleep_unblock_mode_Done EM v v' :
  Sleep.sleep_unblock_mode EM v = Done tt v' ->
  exists c, v !! EM = Some c /\ 0 <= c - 1 /\ v' = <[EM:=c - 1]> v.
Proof.
  unfold Sleep.sleep_unblock_mode, bind, Sleep.load, Sleep.store, int_result,
    EFM_ASSERT, ret, undefined.
  destruct (v !! EM) as [c|] eqn:Hl; [|discriminate].
  destruct ((INT_MIN <=? c - 1) && (c - 1 <=? INT_MAX)); [|discriminate].
  rewrite Hl.
  destruct (Z.leb_spec 0 (c - 1)); [|discriminate].
  intros [= <-]. now exists c.
Qed.

(** A call that returns has moved one counter by one. *)
Lemma perform_Done a v v' :
  perform a v = Done tt v' ->
  exists c, v !! level_of a = Some c /\
    v' = <[level_of a := c + outstanding (level_of a) [a]]> v /\
    (counter_ok c -> counter_ok (c + outstanding (level_of a) [a])).
Proof.
  unfold counter_ok.
  destruct a as [EM|EM]; simpl; rewrite Nat.eqb_refl; intros H.
  - apply sleep_block_mode_Done in H as (c & Hl & Hc & ->).
    exists c. repeat split; auto; lia.
  - apply sleep_unblock_mode_Done in H as (c & Hl & Hc & ->).
    exists c. replace (c + (0 - 1)) with (c - 1) by lia.
    repeat split; auto; lia.
Qed.

Lemma outstanding_cons EM a cs :
  outstanding EM (a :: cs) = outstanding EM [a] + outstanding EM cs.
Proof. destruct a; simpl; lia. Qed.

Lemma outstanding_other EM a :
  level_of a <> EM -> outstanding EM [a] = 0.
Proof.
  destruct a as [l|l]; simpl; intros H;
    destruct (Nat.eqb_spec l EM); congruence || lia.
Qed.

Lemma perform_all_cons_Done a cs v v' :
  perform_all (a :: cs) v = Done tt v' ->
  exists w, perform a v = Done tt w /\ perform_all cs w = Done tt v'.
Proof.
  simpl. unfold bind. destruct (perform a v) as [[] w| | |]; try discriminate.
  intros H. now exists w.
Qed.

(** The counters after a run are the counters before it plus what is
    outstanding. *)
Lemma perform_all_counters cs : forall v v',
  perform_all cs v = Done tt v' ->
  length v' = length v /\
  forall EM c, v !! EM = Some c -> v' !! EM = Some (c + outstanding EM cs).
Proof.
  induction cs as [|a cs IH]; intros v v' H.
  - simpl in H. injection H as <-. split; [reflexivity|].
    intros EM c Hc. simpl. now rewrite Z.add_0_r.
  - apply perform_all_cons_Done in H as (w & Ha & Hcs).
    apply perform_Done in Ha as (x & Hx & -> & _).
    apply IH in Hcs as [Hlen Hcs]. rewrite length_insert in Hlen.
    split; [exact Hlen|].
    intros EM c Hc. rewrite outstanding_cons.
    destruct (Nat.eq_dec (level_of a) EM) as [<-|Hne].
    + rewrite Hx in Hc. injection Hc as <-.
      rewrite (Hcs (level_of a) (x + outstanding (level_of a) [a])).
      * f_equal. lia.
      * apply list_lookup_insert_eq. eapply lookup_lt_Some, Hx.
    + rewrite (outstanding_other _ _ Hne). rewrite (Hcs EM c); [f_equal; lia|].
      now rewrite list_lookup_insert_ne.
Qed.

(** No run that returns leaves a counter outside [0, 5). *)
Lemma perform_all_counter_ok cs : forall v v',
  Forall counter_ok v -> perform_all cs v = Done tt v' -> Forall counter_ok v'.
Proof.
  induction cs as [|a cs IH]; intros v v' Hv H.
  - simpl in H. now injection H as <-.
  - apply perform_all_cons_Done in H as (w & Ha & Hcs).
    apply (IH w); [|exact Hcs].
    apply perform_Done in Ha as (x & Hx & -> & Hok).
    apply Forall_insert; [exact Hv|].
    apply Hok, (proj1 (Forall_lookup _ _) Hv _ _ Hx).
Qed.

Lemma perform_all_app_Done cs1 : forall cs2 v v',
  perform_all (cs1 ++ cs2) v = Done tt v' ->
  exists w, perform_all cs1 v = Done tt w /\ perform_all cs2 w = Done tt v'.
Proof.
  induction cs1 as [|a cs1 IH]; intros cs2 v v' H.
  - exists v. now split.
  - rewrite <- app_comm_cons in H.
    apply perform_all_cons_Done in H as (w & Ha & Hcs).
    apply IH in Hcs as (w' & H1 & H2). exists w'. split; [|exact H2].
    simpl. unfold bind. now rewrite Ha.
Qed.

(** With counters in [0, 5) and levels inside the array, a run either
    returns or stops at an assertion. *)
Lemma perform_all_total cs : forall v,
  Forall counter_ok v ->
  Forall (fun a => (level_of a < length v)%nat) cs ->
  perform_all cs v = AssertFail \/ exists v', perform_all cs v = Done tt v'.
Proof.
  induction cs as [|a cs IH]; intros v Hv Hcs.
  - right. now exists v.
  - inversion Hcs as [|? ? Ha Hcs']; subst.
    apply lookup_lt_is_Some in Ha as [c Hc].
    pose proof (proj1 (Forall_lookup _ _) Hv _ _ Hc) as Hok.
    unfold counter_ok in Hok.
    assert (perform a v = AssertFail \/
            exists w, perform a v = Done tt w /\ Forall counter_ok w /\
                      length w = length v) as [Hf|(w & Hw & Hwok & Hlen)].
    { destruct a as [EM|EM]; simpl in *.
      - destruct (Z.eq_dec c 4) as [->|].
        + left. apply (sleep_block_mode_full _ 4); [exact Hc | int_range].
        + right. eexists. split; [apply (sleep_block_mode_ok _ c); [exact Hc|lia]|].
          split; [|apply length_insert].
          apply Forall_insert; [exact Hv | unfold counter_ok; lia].
      - destruct (Z.eq_dec c 0) as [->|].
        + left. apply (sleep_unblock_mode_underflow _ 0); [exact Hc | int_range].
        + right. eexists.
          split; [apply (sleep_unblock_mode_ok _ c); [exact Hc|int_range]|].
          split; [|apply length_insert].
          apply Forall_insert; [exact Hv | unfold counter_ok; lia]. }
    + left. simpl. unfold bind. now rewrite Hf.
    + simpl. unfold bind. rewrite Hw. apply IH; [exact Hwok|].
      now rewrite Hlen.
Qed.

End ArbiterFacts.

Section ArbiterClaims.

Variable MAX_ENERGY_MODES : nat.

Implicit Types (v w : list Z) (EM i j r : nat) (c : Z).

Lemma current_block_loop_spec v : forall rounds i,
  (rounds + i = length v)%nat ->
  (forall j, (j < i)%nat -> v !! j = Some 0) ->
  exists r, Sleep.current_block_loop MAX_ENERGY_MODES rounds i v = Done r v /\
            shallowest_blocked MAX_ENERGY_MODES v r.
Proof.
  induction rounds as [|n IH]; intros i Hlen Hzero.
  - exists (MAX_ENERGY_MODES - 1)%nat. split; [reflexivity|].
    right. split; [|reflexivity]. intros j Hj. apply Hzero. lia.
  - assert (is_Some (v !! i)) as [c Hc] by (apply lookup_lt_is_Some; lia).
    simpl. unfold bind. rewrite (load_Some _ _ _ Hc).
    destruct (Z.eqb_spec c 0) as [->|Hne].
    + apply IH; [lia|]. intros j Hj.
      destruct (Nat.eq_dec j i) as [->|]; [exact Hc | apply Hzero; lia].
    + exists i. split; [reflexivity|]. left.
      split; [lia|]. split; [now exists c | exact Hzero].
Qed.

Lemma current_block_energy_mode_spec v :
  length v = MAX_ENERGY_MODES ->
  exists r, Sleep.current_block_energy_mode MAX_ENERGY_MODES v = Done r v /\
            shallowest_blocked MAX_ENERGY_MODES v r.
Proof.
  intros Hlen. apply current_block_loop_spec; [lia|]. intros j Hj. lia.
Qed.

(** The result of [current_block_energy_mode] is determined by [v]. *)
Lemma shallowest_blocked_below v r EM c :
  shallowest_blocked MAX_ENERGY_MODES v r ->
  v !! EM = Some c -> c <> 0 -> (r <= EM)%nat.
Proof.
  intros [(_ & _ & Hz)|[Hz _]] Hc Hne.
  - destruct (Nat.le_gt_cases r EM) as [|Hlt]; [assumption|].
    specialize (Hz _ Hlt). congruence.
  - specialize (Hz EM (lookup_lt_Some _ _ _ Hc)). congruence.
Qed.

Lemma sleep_open_loop_spec : forall n i v,
  (i + n <= length v)%nat ->
  exists v', Sleep.sleep_open_loop n i v = Done tt v' /\
    length v' = length v /\
    (forall j, (i <= j < i + n)%nat -> v' !! j = Some 0) /\
    (forall j, ~ (i <= j < i + n)%nat -> v' !! j = v !! j).
Proof.
  induction n as [|n IH]; intros i v Hlen.
  - exists v. split; [reflexivity|]. split; [reflexivity|].
    split; [intros; lia | reflexivity].
  - assert (is_Some (v !! i)) as [c Hc] by (apply lookup_lt_is_Some; lia).
    simpl. unfold bind. rewrite (store_Some _ _ _ _ Hc).
    destruct (IH (S i) (<[i:=0]> v)) as (v' & Hrun & Hl & Hin & Hout).
    { rewrite length_insert. lia. }
    exists v'. split; [exact Hrun|]. rewrite length_insert in Hl.
    split; [exact Hl|]. split.
    + intros j Hj. destruct (Nat.eq_dec j i) as [->|Hne].
      * rewrite Hout by lia. apply list_lookup_insert_eq. lia.
      * apply Hin. lia.
    + intros j Hj. rewrite Hout by lia. apply list_lookup_insert_ne. lia.
Qed.

End ArbiterClaims.

(** C3: [current_block_energy_mode] returns the shallowest level whose
    counter is nonzero, or [MAX_ENERGY_MODES - 1] when every counter is zero,
    and leaves the array of counters as it found it. *)
Theorem current_block_energy_mode_shallowest
    (MAX_ENERGY_MODES : nat) (v : list Z) :
  length v = MAX_ENERGY_MODES ->
  exists r : nat,
    Sleep.current_block_energy_mode MAX_ENERGY_MODES v = Done r v /\
    (((r < MAX_ENERGY_MODES)%nat /\
      (exists c, v !! r = Some c /\ c <> 0) /\
      (forall j : nat, (j < r)%nat -> v !! j = Some 0))
     \/
     ((forall j : nat, (j < MAX_ENERGY_MODES)%nat -> v !! j = Some 0) /\
      r = (MAX_ENERGY_MODES - 1)%nat)).
Proof.
  intros Hlen.
  destruct (current_block_energy_mode_spec MAX_ENERGY_MODES v Hlen)
    as (r & Hrun & Hr).
  exists r. split; [exact Hrun|].
  unfold shallowest_blocked in Hr. now rewrite Hlen in Hr.
Qed.

Lemma current_block_energy_mode_shallowest_witness :
  exists r : nat,
    Sleep.current_block_energy_mode 5 [0; 0; 2; 1; 0] = Done r [0; 0; 2; 1; 0] /\
    (((r < 5)%nat /\
      (exists c, [0; 0; 2; 1; 0] !! r = Some c /\ c <> 0) /\
      (forall j : nat, (j < r)%nat -> [0; 0; 2; 1; 0] !! j = Some 0))
     \/
     ((forall j : nat, (j < 5)%nat -> [0; 0; 2; 1; 0] !! j = Some 0) /\
      r = (5 - 1)%nat)).
Proof.
  apply (current_block_energy_mode_shallowest 5 [0; 0; 2; 1; 0]). reflexivity.
Defined.

(** C10: [sleep_open] zeroes the counters of levels 0 to
    [MAX_ENERGY_MODES - 2] and nothing else; the counter of the deepest
    level, index [MAX_ENERGY_MODES - 1], keeps the value it had. *)
Theorem sleep_open_skips_deepest (MAX_ENERGY_MODES : nat) (v : list Z) :
  length v = MAX_ENERGY_MODES ->
  exists v' : list Z,
    Sleep.sleep_open MAX_ENERGY_MODES v = Done tt v' /\
    length v' = MAX_ENERGY_MODES /\
    (forall j : nat, (j < MAX_ENERGY_MODES - 1)%nat -> v' !! j = Some 0) /\
    v' !! (MAX_ENERGY_MODES - 1)%nat = v !! (MAX_ENERGY_MODES - 1)%nat.
Proof.
  intros Hlen.
  destruct (sleep_open_loop_spec (MAX_ENERGY_MODES - 1) 0 v)
    as (v' & Hrun & Hl & Hin & Hout); [lia|].
  exists v'. split; [exact Hrun|]. split; [lia|]. split.
  - intros j Hj. apply Hin. lia.
  - apply Hout. lia.
Qed.

Lemma sleep_open_skips_deepest_witness :
  exists v' : list Z,
    Sleep.sleep_open 5 [3; 1; 4; 1; 2] = Done tt v' /\
    length v' = 5%nat /\
    (forall j : nat, (j < 5 - 1)%nat -> v' !! j = Some 0) /\
    v' !! (5 - 1)%nat = [3; 1; 4; 1; 2] !! (5 - 1)%nat.
Proof.
  apply (sleep_open_skips_deepest 5 [3; 1; 4; 1; 2]). reflexivity.
Defined.

(** C8: [sleep_unblock_mode] on a counter that is zero stops at the
    assertion; no run of block and unblock calls that returns leaves a
    counter negative (or above four); and a run that unblocks a level more
    often than it was blocked stops at an assertion. *)
Theorem sleep_unblock_mode_underflow_is_fatal
    (v : list Z) (cs : list arbiter_call) (EM : nat) :
  Forall counter_ok v ->
  (v !! EM = Some 0 -> Sleep.sleep_unblock_mode EM v = AssertFail) /\
  (forall v', perform_all cs v = Done tt v' -> Forall counter_ok v') /\
  (Forall (fun a => (level_of a < length v)%nat) cs ->
   over_unblocked v cs -> perform_all cs v = AssertFail).
Proof.
  intros Hv. split; [|split].
  - intros H0. apply (sleep_unblock_mode_underflow EM 0 v H0).
    unfold INT_MIN. change (2 ^ 31) with 2147483648. lia.
  - intros v'. now apply perform_all_counter_ok.
  - intros Hrange (n & l & c & Hc & Hneg).
    destruct (perform_all_total cs v Hv Hrange) as [Hf|[v' Hrun]]; [exact Hf|].
    exfalso. rewrite <- (take_drop n cs) in Hrun.
    apply perform_all_app_Done in Hrun as (w & Hpre & _).
    pose proof (perform_all_counter_ok _ _ _ Hv Hpre) as Hw.
    apply perform_all_counters in Hpre as [_ Hpre].
    specialize (Hpre _ _ Hc).
    apply (proj1 (Forall_lookup _ _) Hw) in Hpre. unfold counter_ok in Hpre.
    lia.
Qed.

Lemma sleep_unblock_mode_underflow_is_fatal_witness :
  Sleep.sleep_unblock_mode 2 [0; 0; 0; 1; 0] = AssertFail /\
  perform_all [block 2; unblock 2; unblock 2] [0; 0; 0; 1; 0] = AssertFail.
Proof.
  assert (Forall counter_ok [0; 0; 0; 1; 0]) as Hv.
  { repeat constructor; unfold counter_ok; lia. }
  destruct (sleep_unblock_mode_underflow_is_fatal
              [0; 0; 0; 1; 0] [block 2; unblock 2; unblock 2] 2%nat Hv)
    as (Hzero & _ & Hover).
  split.
  - apply Hzero. reflexivity.
  - apply Hover.
    + repeat constructor.
    + exists 3%nat, 2%nat, 0. split; [reflexivity | simpl; lia].
Defined.

(** C4, as amended: over a run of block and unblock calls that is balanced
    level by level and returns, [current_block_energy_mode] gives the same
    level after the last call as before the first, and after every prefix of
    the run it gives a level no deeper than (less than or equal to) the level
    of any call still outstanding. *)
Theorem balanced_calls_restore_block_mode
    (MAX_ENERGY_MODES : nat) (v v' : list Z) (cs : list arbiter_call) :
  length v = MAX_ENERGY_MODES ->
  Forall (fun c => 0 <= c) v ->
  balanced cs = true ->
  perform_all cs v = Done tt v' ->
  (exists r : nat,
     Sleep.current_block_energy_mode MAX_ENERGY_MODES v = Done r v /\
     Sleep.current_block_energy_mode MAX_ENERGY_MODES v' = Done r v') /\
  (forall (n : nat) (w : list Z) (EM : nat),
     perform_all (take n cs) v = Done tt w ->
     0 < outstanding EM (take n cs) ->
     exists r : nat,
       Sleep.current_block_energy_mode MAX_ENERGY_MODES w = Done r w /\
       (r <= EM)%nat).
Proof.
  intros Hlen Hv Hbal Hrun. split.
  - assert (v' = v) as ->.
    { destruct (perform_all_counters _ _ _ Hrun) as [Hl Hc].
      apply list_eq. intros i.
      destruct (v !! i) as [c|] eqn:Hi.
      - rewrite (Hc _ _ Hi). f_equal.
        destruct (Z.eq_dec (outstanding i cs) 0) as [->|Hne]; [lia|].
        exfalso. apply Hne. clear -Hbal Hne.
        unfold balanced in Hbal. rewrite forallb_forall in Hbal.
        assert (exists a, In a cs /\ level_of a = i) as (a & Ha & <-).
        { revert Hne. clear. induction cs as [|a cs IH]; [easy|].
          rewrite outstanding_cons. intros Hne.
          destruct (Nat.eq_dec (level_of a) i) as [Heq|Hn].
          - exists a. split; [now left | exact Heq].
          - rewrite (outstanding_other _ _ Hn) in Hne.
            destruct IH as (b & Hb & Hlb); [lia|].
            exists b. split; [now right | exact Hlb]. }
        apply Hbal in Ha. lia.
      - apply lookup_ge_None in Hi. apply lookup_ge_None. lia. }
    destruct (current_block_energy_mode_spec MAX_ENERGY_MODES v Hlen)
      as (r & Hr & _).
    exists r. now split.
  - intros n w EM Hpre Hout.
    destruct (perform_all_counters _ _ _ Hpre) as [Hl Hc].
    destruct (current_block_energy_mode_spec MAX_ENERGY_MODES w)
      as (r & Hr & Hspec); [lia|].
    exists r. split; [exact Hr|].
    assert (is_Some (v !! EM)) as [c Hi].
    { revert Hout Hpre. clear. generalize (take n cs). intros l. revert v w.
      induction l as [|a l IH]; intros v w Hout Hpre; [simpl in Hout; lia|].
      apply perform_all_cons_Done in Hpre as (u & Ha & Hl).
      apply perform_Done in Ha as (x & Hx & -> & _).
      destruct (Nat.eq_dec (level_of a) EM) as [<-|Hn]; [now exists x|].
      rewrite outstanding_cons, (outstanding_other _ _ Hn) in Hout.
      destruct (IH _ _ Hout Hl) as [y Hy].
      rewrite list_lookup_insert_ne in Hy by exact Hn. now exists y. }
    apply (shallowest_blocked_below MAX_ENERGY_MODES w r EM _ Hspec (Hc _ _ Hi)).
    pose proof (proj1 (Forall_lookup _ _) Hv _ _ Hi). simpl in *. lia.
Qed.

Lemma balanced_calls_restore_block_mode_witness :
  (exists r : nat,
     Sleep.current_block_energy_mode 5 [0; 0; 0; 1; 0] = Done r [0; 0; 0; 1; 0] /\
     Sleep.current_block_energy_mode 5 [0; 0; 0; 1; 0] = Done r [0; 0; 0; 1; 0]) /\
  (forall (n : nat) (w : list Z) (EM : nat),
     perform_all (take n [block 2; block 1; unblock 2; unblock 1])
       [0; 0; 0; 1; 0] = Done tt w ->
     0 < outstanding EM (take n [block 2; block 1; unblock 2; unblock 1]) ->
     exists r : nat,
       Sleep.current_block_energy_mode 5 w = Done r w /\ (r <= EM)%nat).
Proof.
  apply (balanced_calls_restore_block_mode 5 [0; 0; 0; 1; 0] [0; 0; 0; 1; 0]
           [block 2; block 1; unblock 2; unblock 1]).
  - reflexivity.
  - repeat constructor; lia.
  - reflexivity.
  - reflexivity.
Defined.

(** C4 as stated fails: with levels 3 and 1 both blocked,
    [current_block_energy_mode] gives 1, which is not at least the
    outstanding level 3. *)
Lemma block_mode_not_above_outstanding :
  balanced [block 3; block 1; unblock 1; unblock 3] = true /\
  perform_all [block 3; block 1; unblock 1; unblock 3] [0; 0; 0; 0; 0]
    = Done tt [0; 0; 0; 0; 0] /\
  perform_all (take 2 [block 3; block 1; unblock 1; unblock 3]) [0; 0; 0; 0; 0]
    = Done tt [0; 1; 0; 1; 0] /\
  0 < outstanding 3 (take 2 [block 3; block 1; unblock 1; unblock 3]) /\
  Sleep.current_block_energy_mode 5 [0; 1; 0; 1; 0] = Done 1%nat [0; 1; 0; 1; 0] /\
  ~ (3 <= 1)%nat.
Proof.
  repeat split; try reflexivity. lia.
Qed.

(** [enter_sleep] reads the counters of EM0 to EM3 only. *)
Lemma enter_sleep_cascade (v : list Z) (c0 c1 c2 c3 : Z) :
  v !! EM0 = Some c0 -> v !! EM1 = Some c1 ->
  v !! EM2 = Some c2 -> v !! EM3 = Some c3 ->
  Sleep.enter_sleep v =
    Done (if 0 <? c0 then None
          else if 0 <? c1 then None
          else if 0 <? c2 then Some EMU_EnterEM1
          else if 0 <? c3 then Some (EMU_EnterEM2 true)
          else Some (EMU_EnterEM3 true)) v.
Proof.
  intros H0 H1 H2 H3. unfold Sleep.enter_sleep, bind.
  rewrite (load_Some _ _ _ H0). destruct (0 <? c0); [reflexivity|].
  rewrite (load_Some _ _ _ H1). destruct (0 <? c1); [reflexivity|].
  rewrite (load_Some _ _ _ H2). destruct (0 <? c2); [reflexivity|].
  rewrite (load_Some _ _ _ H3). destruct (0 <? c3); reflexivity.
Qed.

(** C9: over counters that are not negative, [enter_sleep] stays awake when
    the EM0 or the EM1 counter is nonzero, enters EM1 when EM2 is the
    shallowest nonzero counter, EM2 when EM3 is, and EM3 when the counters of
    EM0 to EM3 are all zero; it changes no counter, a counter of a level
    beyond EM3 has no influence on it, and the mode it enters is strictly
    shallower than the level [current_block_energy_mode] returns. *)
Theorem enter_sleep_shallower_than_blocked
    (MAX_ENERGY_MODES : nat) (v : list Z) :
  length v = MAX_ENERGY_MODES ->
  (5 <= MAX_ENERGY_MODES)%nat ->
  Forall (fun c => 0 <= c) v ->
  exists (entered : option emu_call) (r : nat),
    Sleep.enter_sleep v = Done entered v /\
    Sleep.current_block_energy_mode MAX_ENERGY_MODES v = Done r v /\
    (v !! EM0 <> Some 0 \/ v !! EM1 <> Some 0 -> entered = None) /\
    (v !! EM0 = Some 0 -> v !! EM1 = Some 0 -> v !! EM2 <> Some 0 ->
     entered = Some EMU_EnterEM1) /\
    (v !! EM0 = Some 0 -> v !! EM1 = Some 0 -> v !! EM2 = Some 0 ->
     v !! EM3 <> Some 0 -> entered = Some (EMU_EnterEM2 true)) /\
    (v !! EM0 = Some 0 -> v !! EM1 = Some 0 -> v !! EM2 = Some 0 ->
     v !! EM3 = Some 0 -> entered = Some (EMU_EnterEM3 true)) /\
    (forall (i : nat) (x : Z), (EM4 <= i)%nat ->
     Sleep.enter_sleep (<[i:=x]> v) = Done entered (<[i:=x]> v)) /\
    (forall call, entered = Some call -> (emu_depth call < r)%nat).
Proof.
  intros Hlen Hmax Hv. unfold EM0, EM1, EM2, EM3, EM4.
  assert (forall i, (i < 5)%nat -> exists c, v !! i = Some c /\ 0 <= c) as Hget.
  { intros i Hi. assert (is_Some (v !! i)) as [c Hc]
      by (apply lookup_lt_is_Some; lia).
    exists c. split; [exact Hc|].
    exact (proj1 (Forall_lookup _ _) Hv _ _ Hc). }
  destruct (Hget 0%nat) as (c0 & H0 & Hc0); [lia|].
  destruct (Hget 1%nat) as (c1 & H1 & Hc1); [lia|].
  destruct (Hget 2%nat) as (c2 & H2 & Hc2); [lia|].
  destruct (Hget 3%nat) as (c3 & H3 & Hc3); [lia|].
  destruct (current_block_energy_mode_spec MAX_ENERGY_MODES v Hlen)
    as (r & Hr & Hspec).
  eexists _, r. split; [apply (enter_sleep_cascade v c0 c1 c2 c3); assumption|].
  split; [exact Hr|].
  assert (forall i c, v !! i = Some c -> c <> 0 -> (r <= i)%nat) as Hbelow.
  { intros i c. apply shallowest_blocked_below with (1 := Hspec). }
  assert (forall i, v !! i = Some 0 -> r <> i \/ (4 <= r)%nat) as Habove.
  { intros i Hz. destruct Hspec as [(_ & (c & Hc & Hne) & _)|[_ ->]]; [|lia].
    left. intros ->. congruence. }
  rewrite H0, H1, H2, H3.
  repeat split.
  - intros [Hn|Hn].
    + destruct (Z.ltb_spec 0 c0); [reflexivity|].
      exfalso. apply Hn. f_equal. lia.
    + destruct (Z.ltb_spec 0 c0); [reflexivity|].
      destruct (Z.ltb_spec 0 c1); [reflexivity|].
      exfalso. apply Hn. f_equal. lia.
  - intros [= ->] [= ->] Hn. simpl.
    destruct (Z.ltb_spec 0 c2); [reflexivity|].
    exfalso. apply Hn. f_equal. lia.
  - intros [= ->] [= ->] [= ->] Hn. simpl.
    destruct (Z.ltb_spec 0 c3); [reflexivity|].
    exfalso. apply Hn. f_equal. lia.
  - intros [= ->] [= ->] [= ->] [= ->]. reflexivity.
  - intros i x Hi.
    apply enter_sleep_cascade; unfold EM0, EM1, EM2, EM3;
      rewrite list_lookup_insert_ne by lia; assumption.
  - intros call.
    destruct (Z.ltb_spec 0 c0); [discriminate|].
    destruct (Z.ltb_spec 0 c1); [discriminate|].
    assert (c0 = 0) as -> by lia. assert (c1 = 0) as -> by lia.
    pose proof (Habove 0%nat H0).
    pose proof (Habove 1%nat H1).
    destruct (Z.ltb_spec 0 c2); [intros [= <-]; simpl; lia|].
    assert (c2 = 0) as -> by lia.
    pose proof (Habove 2%nat H2).
    destruct (Z.ltb_spec 0 c3); [intros [= <-]; simpl; lia|].
    assert (c3 = 0) as -> by lia.
    pose proof (Habove 3%nat H3).
    intros [= <-]; simpl; lia.
Qed.

Lemma enter_sleep_shallower_than_blocked_witness :
  exists (entered : option emu_call) (r : nat),
    Sleep.enter_sleep [0; 0; 1; 0; 3] = Done entered [0; 0; 1; 0; 3] /\
    Sleep.current_block_energy_mode 5 [0; 0; 1; 0; 3] = Done r [0; 0; 1; 0; 3] /\
    ([0; 0; 1; 0; 3] !! EM0 <> Some 0 \/ [0; 0; 1; 0; 3] !! EM1 <> Some 0 ->
     entered = None) /\
    ([0; 0; 1; 0; 3] !! EM0 = Some 0 -> [0; 0; 1; 0; 3] !! EM1 = Some 0 ->
     [0; 0; 1; 0; 3] !! EM2 <> Some 0 -> entered = Some EMU_EnterEM1) /\
    ([0; 0; 1; 0; 3] !! EM0 = Some 0 -> [0; 0; 1; 0; 3] !! EM1 = Some 0 ->
     [0; 0; 1; 0; 3] !! EM2 = Some 0 -> [0; 0; 1; 0; 3] !! EM3 <> Some 0 ->
     entered = Some (EMU_EnterEM2 true)) /\
    ([0; 0; 1; 0; 3] !! EM0 = Some 0 -> [0; 0; 1; 0; 3] !! EM1 = Some 0 ->
     [0; 0; 1; 0; 3] !! EM2 = Some 0 -> [0; 0; 1; 0; 3] !! EM3 = Some 0 ->
     entered = Some (EMU_EnterEM3 true)) /\
    (forall (i : nat) (x : Z), (EM4 <= i)%nat ->
     Sleep.enter_sleep (<[i:=x]> [0; 0; 1; 0; 3])
       = Done entered (<[i:=x]> [0; 0; 1; 0; 3])) /\
    (forall call, entered = Some call -> (emu_depth call < r)%nat).
Proof.
  apply (enter_sleep_shallower_than_blocked 5 [0; 0; 1; 0; 3]).
  - reflexivity.
  - lia.
  - repeat constructor; lia.
Defined.

(** ** The scheduler *)

Lemma clear_all_cons (e : Z) (events : list Z) (pending : Z) :
  clear_all (e :: events) pending
  = clear_all events (Z.land pending (wrap32 (Z.lnot e))).
Proof. reflexivity. Qed.

Lemma serviced_cons (pending e : Z) (events : list Z) :
  serviced pending (e :: events) ->
  serviced (Z.land pending (wrap32 (Z.lnot e))) events.
Proof.
  unfold serviced, wrap32. simpl. intros H.
  apply Z.bits_inj'. intros i Hi.
  apply (f_equal (fun z => Z.testbit z i)) in H.
  rewrite Z.bits_0 in *.
  rewrite !Z.land_spec, !Z.lnot_spec, Z.lor_spec in H by exact Hi.
  rewrite !Z.land_spec, Z.testbit_mod_pow2, !Z.lnot_spec by lia.
  destruct (Z.testbit pending i), (Z.testbit e i),
    (Z.testbit (fold_right Z.lor 0 events) i), (i <? 32);
    simpl in *; congruence.
Qed.

Lemma clear_all_serviced (events : list Z) : forall pending : Z,
  serviced pending events -> clear_all events pending = Done tt 0.
Proof.
  induction events as [|e events IH]; intros pending H.
  - unfold serviced in H. simpl in H.
    change (Z.lnot 0) with (-1) in H. rewrite Z.land_m1_r in H. now subst.
  - rewrite clear_all_cons. apply IH, serviced_cons, H.
Qed.

(** C6: posting an event twice leaves the pending mask that posting it once
    leaves, for every mask and event; and once the consumer has cleared a
    set of events that covers every pending bit, [get_scheduled_events]
    returns zero. *)
Theorem add_scheduled_event_idempotent_and_drained
    (pending event : Z) (events : list Z) :
  (Scheduler.add_scheduled_event event >> Scheduler.add_scheduled_event event)
    pending
  = Scheduler.add_scheduled_event event pending
  /\
  (serviced pending events ->
   (clear_all events >> Scheduler.get_scheduled_events) pending = Done 0 0).
Proof.
  split.
  - unfold Scheduler.add_scheduled_event, bind, get, put.
    now rewrite <- Z.lor_assoc, Z.lor_diag.
  - intros H. unfold bind. now rewrite (clear_all_serviced _ _ H).
Qed.

Lemma add_scheduled_event_idempotent_and_drained_witness :
  (Scheduler.add_scheduled_event 8 >> Scheduler.add_scheduled_event 8) 17
  = Scheduler.add_scheduled_event 8 17
  /\
  (clear_all [1; 8; 16] >> Scheduler.get_scheduled_events) 25 = Done 0 0.
Proof.
  destruct (add_scheduled_event_idempotent_and_drained 25 8 [1; 8; 16])
    as [_ Hdrain].
  split.
  - apply (add_scheduled_event_idempotent_and_drained 17 8 []).
  - apply Hdrain. reflexivity.
Defined.

(** ** Bytes of a 32-bit word *)

Ltac cmp_cases :=
  repeat match goal with
  | |- context [?a <=? ?b] => destruct (Z.leb_spec a b)
  | |- context [?a <? ?b] => destruct (Z.ltb_spec a b)
  | |- context [?a =? ?b] => destruct (Z.eqb_spec a b)
  end;
  cbn [andb orb negb];
  rewrite ?andb_true_r, ?andb_false_r, ?orb_false_r, ?orb_true_r;
  try reflexivity; try lia.

Lemma testbit_255 (j : Z) : Z.testbit 255 j = (0 <=? j) && (j <? 8).
Proof. change 255 with (Z.ones 8). apply Z.testbit_ones. lia. Qed.

Lemma testbit_byte (b j : Z) : 0 <= b < 256 -> 8 <= j -> Z.testbit b j = false.
Proof.
  intros Hb Hj. rewrite <- (Z.mod_small b (2 ^ 8)) by (change (2 ^ 8) with 256; lia).
  apply Z.mod_pow2_bits_high. lia.
Qed.

Lemma testbit_store_byte (d n b i : Z) :
  0 <= n -> 0 <= i < 32 -> 0 <= b < 256 ->
  Z.testbit (store_byte d n b) i
  = if (8 * n <=? i) && (i <? 8 * n + 8) then Z.testbit b (i - 8 * n)
    else Z.testbit d i.
Proof.
  intros Hn Hi Hb. unfold store_byte, wrap32.
  rewrite Z.lor_spec, Z.land_spec, !Z.testbit_mod_pow2 by lia.
  rewrite Z.lnot_spec, !Z.shiftl_spec, testbit_255 by lia.
  cmp_cases.
  - rewrite (testbit_byte b) by lia. now rewrite orb_false_r.
  - rewrite (Z.testbit_neg_r b) by lia. now rewrite orb_false_r.
Qed.

Lemma byte_of_store_byte (d n b m : Z) :
  0 <= n < 4 -> 0 <= m < 4 -> 0 <= b < 256 ->
  byte_of (store_byte d n b) m = if m =? n then b else byte_of d m.
Proof.
  intros Hn Hm Hb. unfold byte_of.
  apply Z.bits_inj'. intros j Hj.
  destruct (Z.eqb_spec m n) as [->|Hne].
  - rewrite Z.land_spec, Z.shiftr_spec, testbit_255 by lia.
    destruct (Z.ltb_spec j 8).
    + rewrite testbit_store_byte by lia. cmp_cases. f_equal. lia.
    + rewrite (testbit_byte b) by lia. cmp_cases.
  - rewrite !Z.land_spec, !Z.shiftr_spec, testbit_255 by lia.
    destruct (Z.ltb_spec j 8).
    + rewrite testbit_store_byte by lia. cmp_cases.
    + cmp_cases.
Qed.

Lemma store_byte_range (d n b : Z) : 0 <= d -> 0 <= store_byte d n b < 2 ^ 32.
Proof.
  intros Hd. unfold store_byte, wrap32.
  assert (0 <= Z.lnot (Z.shiftl 255 (8 * n)) mod 2 ^ 32 < 2 ^ 32) as HM
    by (apply Z.mod_pos_bound; lia).
  assert (0 <= Z.shiftl b (8 * n) mod 2 ^ 32 < 2 ^ 32) as HB
    by (apply Z.mod_pos_bound; lia).
  set (M := Z.lnot (Z.shiftl 255 (8 * n)) mod 2 ^ 32) in *.
  set (B := Z.shiftl b (8 * n) mod 2 ^ 32) in *.
  assert (Z.lor (Z.land d M) B = Z.lor (Z.land d M) B mod 2 ^ 32) as ->.
  { apply Z.bits_inj'. intros i Hi.
    rewrite Z.testbit_mod_pow2, Z.lor_spec, Z.land_spec by lia.
    destruct (Z.ltb_spec i 32); [reflexivity|]. simpl.
    assert (Z.testbit M i = false) as ->.
    { rewrite <- (Z.mod_small M (2 ^ 32)) by lia.
      apply Z.mod_pow2_bits_high. lia. }
    assert (Z.testbit B i = false) as ->.
    { rewrite <- (Z.mod_small B (2 ^ 32)) by lia.
      apply Z.mod_pow2_bits_high. lia. }
    now rewrite andb_false_r. }
  apply Z.mod_pos_bound. lia.
Qed.

Lemma word_bytes (d n : Z) :
  0 <= n -> d mod 256 ^ (n + 1) = d mod 256 ^ n + 256 ^ n * byte_of d n.
Proof.
  intros Hn. unfold byte_of.
  change 255 with (Z.ones 8). rewrite Z.land_ones, Z.shiftr_div_pow2 by lia.
  rewrite Z.pow_add_r, Z.pow_1_r by lia.
  replace (2 ^ (8 * n)) with (256 ^ n)
    by (rewrite Z.pow_mul_r by lia; reflexivity).
  change (2 ^ 8) with 256.
  apply Z.rem_mul_r; [apply Z.pow_nonzero; lia | lia].
Qed.

Lemma byte_of_small (d n m : Z) :
  0 <= n <= m -> 0 <= d < 256 ^ n -> byte_of d m = 0.
Proof.
  intros Hn Hd. unfold byte_of. rewrite Z.shiftr_div_pow2 by lia.
  replace (2 ^ (8 * m)) with (256 ^ m)
    by (rewrite Z.pow_mul_r by lia; reflexivity).
  rewrite Z.div_small; [reflexivity|].
  assert (256 ^ n <= 256 ^ m) by (apply Z.pow_le_mono_r; lia). lia.
Qed.

(** A word whose bytes from [n] up are zero is below [256 ^ n]. *)
Lemma upper_bytes_zero (x : Z) (n : nat) :
  (n <= 4)%nat -> 0 <= x < 2 ^ 32 ->
  (forall m, Z.of_nat n <= m < 4 -> byte_of x m = 0) ->
  x = x mod 256 ^ Z.of_nat n.
Proof.
  intros Hn Hx Hz.
  assert (forall k : nat, (n + k <= 4)%nat ->
            x mod 256 ^ Z.of_nat (n + k) = x mod 256 ^ Z.of_nat n) as Hk.
  { induction k as [|k IH]; intros Hle.
    - now rewrite Nat.add_0_r.
    - replace (Z.of_nat (n + S k)) with (Z.of_nat (n + k) + 1) by lia.
      rewrite word_bytes, Hz, IH by lia. lia. }
  rewrite <- (Hk (4 - n)%nat) by lia.
  replace (n + (4 - n))%nat with 4%nat by lia.
  symmetry. apply Z.mod_small. exact Hx.
Qed.

Lemma receive_into_range (bs : list Z) : forall d,
  0 <= d < 2 ^ 32 -> 0 <= receive_into d bs < 2 ^ 32.
Proof.
  induction bs as [|b bs IH]; intros d Hd; [exact Hd|].
  simpl. apply IH, store_byte_range. lia.
Qed.

(** Receiving puts the first byte highest and leaves the bytes above the
    received ones alone. *)
Lemma receive_into_bytes (bs : list Z) : forall d,
  (length bs <= 4)%nat -> Forall is_byte bs ->
  (forall i : nat, (i < length bs)%nat ->
     byte_of (receive_into d bs) (Z.of_nat (length bs - 1 - i)) = nth i bs 0) /\
  (forall m, Z.of_nat (length bs) <= m < 4 ->
     byte_of (receive_into d bs) m = byte_of d m).
Proof.
  induction bs as [|b bs IH]; intros d Hlen Hbs.
  - split; [simpl; intros; lia | reflexivity].
  - inversion Hbs as [|? ? Hb Hbs']; subst. simpl in Hlen.
    destruct (IH (store_byte d (Z.of_nat (length bs)) b)) as [Hlow Hhigh];
      [lia | exact Hbs' |].
    unfold is_byte in Hb. split.
    + intros [|i] Hi; cbn [receive_into nth length].
      * replace (S (length bs) - 1 - 0)%nat with (length bs) by lia.
        rewrite Hhigh by lia. rewrite byte_of_store_byte by lia.
        now rewrite Z.eqb_refl.
      * simpl in Hi. specialize (Hlow i ltac:(lia)).
        replace (S (length bs) - 1 - S i)%nat with (length bs - 1 - i)%nat
          by lia.
        exact Hlow.
    + intros m Hm. cbn [receive_into]. simpl length in Hm.
      rewrite Hhigh by lia. rewrite byte_of_store_byte by lia.
      destruct (Z.eqb_spec m (Z.of_nat (length bs))); [lia | reflexivity].
Qed.

(** A word whose low bytes are [bs], most significant first, has the value
    of [bs] in its low bits. *)
Lemma bytes_be_value (bs : list Z) (x : Z) :
  (forall i : nat, (i < length bs)%nat ->
     byte_of x (Z.of_nat (length bs - 1 - i)) = nth i bs 0) ->
  x mod 256 ^ Z.of_nat (length bs) = be_value bs.
Proof.
  induction bs as [|b bs IH]; intros H.
  - simpl. apply Z.mod_1_r.
  - cbn [length be_value].
    replace (Z.of_nat (S (length bs))) with (Z.of_nat (length bs) + 1) by lia.
    rewrite word_bytes by lia.
    pose proof (H 0%nat ltac:(simpl; lia)) as H0. cbn [nth length] in H0.
    replace (S (length bs) - 1 - 0)%nat with (length bs) in H0 by lia.
    rewrite H0, IH; [lia|].
    intros i Hi. specialize (H (S i) ltac:(simpl; lia)).
    cbn [nth length] in H.
    replace (S (length bs) - 1 - S i)%nat with (length bs - 1 - i)%nat in H
      by lia.
    exact H.
Qed.

(** The buffer after a receive of one to four bytes. *)
Lemma receive_into_value (bs : list Z) (d : Z) :
  (length bs <= 4)%nat -> Forall is_byte bs -> 0 <= d < 2 ^ 32 ->
  receive_into d bs mod 256 ^ Z.of_nat (length bs) = be_value bs /\
  (forall m, Z.of_nat (length bs) <= m < 4 ->
     byte_of (receive_into d bs) m = byte_of d m) /\
  (d < 256 ^ Z.of_nat (length bs) -> receive_into d bs = be_value bs).
Proof.
  intros Hlen Hbs Hd.
  destruct (receive_into_bytes bs d Hlen Hbs) as [Hlow Hhigh].
  pose proof (bytes_be_value bs _ Hlow) as Hval.
  split; [exact Hval|]. split; [exact Hhigh|].
  intros Hsmall. rewrite <- Hval.
  apply upper_bytes_zero; [exact Hlen | now apply receive_into_range |].
  intros m Hm. rewrite Hhigh by exact Hm.
  apply (byte_of_small d (Z.of_nat (length bs))); lia.
Qed.

(** ** The bus state machine *)

Lemma events_added_app (l1 l2 : list observation) :
  events_added (l1 ++ l2) = events_added l1 ++ events_added l2.
Proof.
  induction l1 as [|o l1 IH]; [reflexivity|].
  destruct o; simpl; now rewrite IH.
Qed.

Section BusFacts.

Implicit Types (p q : sm_pointer) (s : statics) (e : sub_event).

Lemma wrap32_small (z : Z) : 0 <= z < 2 ^ 32 -> wrap32 z = z.
Proof. apply Z.mod_small. Qed.

Lemma pointee_with_pointee p (m : I2C_STATE_MACHINE) s :
  pointee p (with_pointee p m s) = m.
Proof. now destruct p. Qed.

Lemma pointee_with_pointee_ne p q (m : I2C_STATE_MACHINE) s :
  q <> p -> pointee q (with_pointee p m s) = pointee q s.
Proof. destruct p, q; congruence || reflexivity. Qed.

Lemma same_elsewhere_refl p s : same_elsewhere p s s.
Proof. now repeat split. Qed.

Lemma same_elsewhere_trans p s1 s2 s3 :
  same_elsewhere p s1 s2 -> same_elsewhere p s2 s3 -> same_elsewhere p s1 s3.
Proof.
  intros (Hv & He & Hq) (Hv' & He' & Hq'). repeat split; try congruence.
  intros q Hne. now rewrite Hq', Hq.
Qed.

Ltac run_handler :=
  unfold deliver, I2C.Ack_Func, I2C.Rxdatav_Func, I2C.Stop_Func,
    I2C.deref, I2C.assign, I2C.observe, I2C.shift_count,
    I2C.add_scheduled_event, I2C.sleep_unblock_mode, I2C.sleep_block_mode,
    zoom, bind, ret, undefined, spin, EFM_ASSERT, get, put.

Ltac projections p :=
  repeat split;
  try (destruct p; cbn; rewrite <- ?app_assoc; reflexivity);
  try (intros [] ?; destruct p; congruence || reflexivity).

(** An interrupt with one flag raised delivers that sub-event. *)
Lemma IRQHandler_single_flag p e s :
  I2C.IRQHandler p (int_flag_of e) (RXDATA_of e) s = deliver p e s.
Proof.
  destruct e as [|byte|]; unfold I2C.IRQHandler, deliver;
    cbn [int_flag_of RXDATA_of I2C.I2C_IF_ACK I2C.I2C_IF_RXDATAV
         I2C.I2C_IF_MSTOP];
    unfold bind, ret.
  - now destruct (I2C.Ack_Func p s) as [[] ?| | |].
  - now destruct (I2C.Rxdatav_Func p byte s) as [[] ?| | |].
  - reflexivity.
Qed.

(** The acknowledge of the address byte: the register address goes out. *)
Lemma Ack_Func_initialize_device_write p s :
  current_state (pointee p s) = initialize_device_write ->
  exists s',
    I2C.Ack_Func p s = Done tt s' /\
    pointee p s' =
      with_current_state
        (match mode (pointee p s) with
         | read => write_desired_register
         | write => write_data
         end) (pointee p s) /\
    same_elsewhere p s s' /\
    observed s' = observed s ++
      [TXDATA_written (i2cx (pointee p s)) (desired_register_address (pointee p s))].
Proof.
  intros Hst. run_handler. rewrite Hst.
  destruct (mode (pointee p s)) eqn:Hm; eexists; (split; [reflexivity|]);
    projections p.
Qed.

(** The acknowledge of the register address: repeated start, address byte
    with the read bit. *)
Lemma Ack_Func_write_desired_register p s :
  current_state (pointee p s) = write_desired_register ->
  exists s',
    I2C.Ack_Func p s = Done tt s' /\
    pointee p s' = with_current_state initialize_device_read (pointee p s) /\
    same_elsewhere p s s' /\
    observed s' = observed s ++
      [CMD_written (i2cx (pointee p s)) I2C_CMD_START;
       TXDATA_written (i2cx (pointee p s))
         (Z.lor (wrap32 (Z.shiftl (device_address (pointee p s)) 1)) 1)].
Proof.
  intros Hst. run_handler. rewrite Hst.
  eexists. split; [reflexivity|]. projections p.
Qed.

(** Acknowledges in [initialize_device_read] and [recieve_data] change
    nothing. *)
Lemma Ack_Func_ignored p s :
  current_state (pointee p s) = initialize_device_read \/
  current_state (pointee p s) = recieve_data ->
  I2C.Ack_Func p s = Done tt s.
Proof. intros [Hst|Hst]; run_handler; now rewrite Hst. Qed.

(** One data byte goes out. *)
Lemma Ack_Func_write_data p s (n : Z) :
  current_state (pointee p s) = write_data ->
  num_of_data_bytes (pointee p s) = n -> 1 <= n <= 4 ->
  exists s',
    I2C.Ack_Func p s = Done tt s' /\
    pointee p s' =
      with_current_state (if n =? 1 then recieve_data else write_data)
        (with_num_of_data_bytes (n - 1) (pointee p s)) /\
    same_elsewhere p s s' /\
    observed s' = observed s ++
      TXDATA_written (i2cx (pointee p s)) (byte_of (data (pointee p s)) (n - 1))
      :: (if n =? 1 then [CMD_written (i2cx (pointee p s)) I2C_CMD_STOP] else []).
Proof.
  intros Hst Hn Hrange. run_handler. rewrite Hst, Hn.
  rewrite (wrap32_small (n - 1)) by lia.
  rewrite (wrap32_small (8 * (n - 1))) by lia.
  destruct (Z.ltb_spec (8 * (n - 1)) 32); [|lia].
  fold (byte_of (data (pointee p s)) (n - 1)).
  destruct (Z.eqb_spec (n - 1) 0), (Z.eqb_spec n 1); try lia;
    eexists; (split; [reflexivity|]); projections p.
  destruct p; cbn in *; unfold with_current_state, with_num_of_data_bytes;
    cbn; now rewrite <- Hst.
Qed.

(** One byte comes in. *)
Lemma Rxdatav_Func_receive p s (RXDATA n : Z) :
  current_state (pointee p s) = initialize_device_read ->
  num_of_data_bytes (pointee p s) = n -> 1 <= n <= 4 ->
  exists s',
    I2C.Rxdatav_Func p RXDATA s = Done tt s' /\
    pointee p s' =
      with_current_state
        (if n =? 1 then recieve_data else initialize_device_read)
        (with_data (store_byte (data (pointee p s)) (n - 1) RXDATA)
           (with_num_of_data_bytes (n - 1) (pointee p s))) /\
    same_elsewhere p s s' /\
    observed s' = observed s ++
      (if n =? 1
       then [CMD_written (i2cx (pointee p s)) I2C_CMD_NACK;
             CMD_written (i2cx (pointee p s)) I2C_CMD_STOP]
       else [CMD_written (i2cx (pointee p s)) I2C_CMD_ACK]).
Proof.
  intros Hst Hn Hrange. run_handler. rewrite Hst, Hn.
  rewrite (wrap32_small (n - 1)) by lia.
  rewrite (wrap32_small (8 * (n - 1))) by lia.
  destruct (Z.ltb_spec (8 * (n - 1)) 32); [|lia].
  fold (store_byte (data (pointee p s)) (n - 1) RXDATA).
  destruct (Z.ltb_spec 0 (n - 1)), (Z.eqb_spec n 1); try lia;
    eexists; (split; [reflexivity|]); projections p.
  destruct p; cbn in *;
    unfold with_current_state, with_data, with_num_of_data_bytes;
    cbn; now rewrite <- Hst.
Qed.

(** The stop condition ends the transaction. *)
Lemma Stop_Func_recieve_data p s (c : Z) :
  current_state (pointee p s) = recieve_data ->
  lowest_energy_modes s !! I2C_EM_BLOCK = Some c -> 0 < c <= INT_MAX ->
  exists s',
    I2C.Stop_Func p s = Done tt s' /\
    pointee p s' =
      with_current_state initialize_device_write
        (with_available true (pointee p s)) /\
    lowest_energy_modes s' = <[I2C_EM_BLOCK:=c - 1]> (lowest_energy_modes s) /\
    event_scheduled s' = Z.lor (event_scheduled s) (I2C_CB (pointee p s)) /\
    (forall q, q <> p -> pointee q s' = pointee q s) /\
    observed s' = observed s ++ [event_added (I2C_CB (pointee p s))].
Proof.
  intros Hst Hc Hrange. run_handler. rewrite Hst.
  rewrite (sleep_unblock_mode_ok _ _ _ Hc Hrange).
  unfold Scheduler.add_scheduled_event, bind, get, put.
  eexists. split; [reflexivity|]. projections p.
Qed.

(** A transaction starts on an available instance. *)
Lemma i2c_start_accepted p s (c : Z)
    (device_address : Z) (mode : OPERATION_MODE) (data bytes_expected : Z)
    (desired_register_address app_cb : Z) :
  available (pointee p s) = true ->
  lowest_energy_modes s !! I2C_EM_BLOCK = Some c -> 0 <= c < 4 ->
  exists s',
    I2C.i2c_start (controller p) true device_address mode data bytes_expected
      desired_register_address app_cb s = Done tt s' /\
    pointee p s' =
      {| i2cx := controller p; device_address := device_address;
         available := false; mode := mode;
         num_of_data_bytes := bytes_expected;
         desired_register_address := desired_register_address;
         data := data; I2C_CB := app_cb;
         current_state := initialize_device_write |} /\
    lowest_energy_modes s' = <[I2C_EM_BLOCK:=c + 1]> (lowest_energy_modes s) /\
    event_scheduled s' = event_scheduled s /\
    (forall q, q <> p -> pointee q s' = pointee q s) /\
    observed s' = observed s ++
      [CMD_written (controller p) I2C_CMD_START;
       TXDATA_written (controller p)
         (Z.lor (wrap32 (Z.shiftl device_address 1)) 0)].
Proof.
  intros Hav Hc Hrange.
  assert (I2C.i2c_start (controller p) true device_address mode data
            bytes_expected desired_register_address app_cb s
          = (do sm <- I2C.deref p;
             if negb (available sm) then spin else
             EFM_ASSERT true >>
             I2C.sleep_block_mode I2C_EM_BLOCK >>
             I2C.assign p (with_available false) >>
             I2C.assign p (fun _ =>
               {| i2cx := controller p; device_address := device_address;
                  available := false; mode := mode;
                  num_of_data_bytes := bytes_expected;
                  desired_register_address := desired_register_address;
                  data := data; I2C_CB := app_cb;
                  current_state := initialize_device_write |}) >>
             I2C.observe (CMD_written (controller p) I2C_CMD_START) >>
             I2C.observe (TXDATA_written (controller p)
                            (Z.lor (wrap32 (Z.shiftl device_address 1))
                                   (OPERATION_MODE_value write)))) s) as ->
    by now destruct p.
  run_handler. rewrite Hav. cbn [negb].
  rewrite (sleep_block_mode_ok _ _ _ Hc Hrange).
  eexists. split; [reflexivity|]. projections p.
Qed.

Lemma deliver_all_app p (es1 es2 : list sub_event) s s1 :
  deliver_all p es1 s = Done tt s1 ->
  deliver_all p (es1 ++ es2) s = deliver_all p es2 s1.
Proof.
  revert s. induction es1 as [|e es1 IH]; intros s H.
  - now injection H as <-.
  - simpl in *. unfold bind in *.
    destruct (deliver p e s) as [[] s0| | |]; try discriminate. now apply IH.
Qed.

Lemma deliver_all_cons p e (es : list sub_event) s s1 :
  deliver p e s = Done tt s1 ->
  deliver_all p (e :: es) s = deliver_all p es s1.
Proof. intros H. simpl. unfold bind. now rewrite H. Qed.

Lemma deliver_all_acknowledges_ignored p (k : nat) s :
  current_state (pointee p s) = initialize_device_read ->
  deliver_all p (repeat AddressAcknowledged k) s = Done tt s.
Proof.
  intros Hst. induction k as [|k IH]; [reflexivity|].
  cbn [repeat].
  rewrite (deliver_all_cons p AddressAcknowledged _ s s); [exact IH|].
  apply Ack_Func_ignored. now left.
Qed.

(** The receive phase: as many ByteAvailable sub-events as bytes remain. *)
Lemma deliver_all_bytes p (bs : list Z) : forall s,
  (1 <= length bs <= 4)%nat ->
  current_state (pointee p s) = initialize_device_read ->
  num_of_data_bytes (pointee p s) = Z.of_nat (length bs) ->
  exists s',
    deliver_all p (map ByteAvailable bs) s = Done tt s' /\
    pointee p s' =
      with_current_state recieve_data
        (with_data (receive_into (data (pointee p s)) bs)
           (with_num_of_data_bytes 0 (pointee p s))) /\
    same_elsewhere p s s' /\
    exists l, observed s' = observed s ++ l /\ events_added l = [].
Proof.
  induction bs as [|b bs IH]; intros s Hlen Hst Hn; [simpl in Hlen; lia|].
  destruct (Rxdatav_Func_receive p s b _ Hst Hn) as (s1 & Hrun & Hp & Hsame & Hobs);
    [lia|].
  cbn [map].
  rewrite (deliver_all_cons p (ByteAvailable b) (map ByteAvailable bs) s s1 Hrun).
  cbn [length] in *.
  replace (Z.of_nat (S (length bs)) - 1) with (Z.of_nat (length bs)) in * by lia.
  destruct bs as [|b' bs].
  - exists s1. split; [reflexivity|]. split; [exact Hp|]. split; [exact Hsame|].
    eexists. split; [exact Hobs | reflexivity].
  - destruct (Z.eqb_spec (Z.of_nat (S (length (b' :: bs)))) 1) as [Heq|_];
      [simpl in Heq; lia|].
    destruct (IH s1) as (s' & Hrun' & Hp' & Hsame' & l & Hobs' & Hl).
    { simpl in *. lia. }
    { now rewrite Hp. }
    { now rewrite Hp. }
    exists s'. split; [exact Hrun'|]. split.
    + rewrite Hp', Hp. reflexivity.
    + split; [eapply same_elsewhere_trans; eassumption|].
      eexists. split; [rewrite Hobs', Hobs, <- app_assoc; reflexivity|].
      simpl. exact Hl.
Qed.

(** A read transaction, from [i2c_start] to the stop condition. *)
Lemma read_transaction p s (c : Z)
    (device_address desired_register_address app_cb data0 : Z)
    (bs : list Z) (extra_acks : nat) :
  available (pointee p s) = true ->
  lowest_energy_modes s !! I2C_EM_BLOCK = Some c -> 0 <= c < 4 ->
  (1 <= length bs <= 4)%nat ->
  exists s',
    (I2C.i2c_start (controller p) true device_address read data0
       (Z.of_nat (length bs)) desired_register_address app_cb >>
     deliver_all p
       ([AddressAcknowledged; AddressAcknowledged]
        ++ repeat AddressAcknowledged extra_acks
        ++ map ByteAvailable bs ++ [StopConditionObserved])) s = Done tt s' /\
    pointee p s' =
      {| i2cx := controller p; device_address := device_address;
         available := true; mode := read; num_of_data_bytes := 0;
         desired_register_address := desired_register_address;
         data := receive_into data0 bs; I2C_CB := app_cb;
         current_state := initialize_device_write |} /\
    lowest_energy_modes s' = lowest_energy_modes s /\
    event_scheduled s' = Z.lor (event_scheduled s) app_cb /\
    (forall q, q <> p -> pointee q s' = pointee q s) /\
    exists l, observed s' = observed s ++ l /\ events_added l = [app_cb].
Proof.
  intros Hav Hc Hrange Hlen.
  destruct (i2c_start_accepted p s c device_address read data0
              (Z.of_nat (length bs)) desired_register_address app_cb
              Hav Hc Hrange)
    as (s0 & Hstart & Hp0 & Hv0 & He0 & Hq0 & Ho0).
  unfold bind at 1. rewrite Hstart.
  destruct (Ack_Func_initialize_device_write p s0) as (s1 & H1 & Hp1 & Hs1 & Ho1);
    [now rewrite Hp0|].
  rewrite Hp0 in Hp1, Ho1. cbn in Hp1, Ho1.
  destruct (Ack_Func_write_desired_register p s1) as (s2 & H2 & Hp2 & Hs2 & Ho2);
    [now rewrite Hp1|].
  rewrite Hp1 in Hp2, Ho2. cbn in Hp2, Ho2.
  cbn [app].
  rewrite (deliver_all_cons p AddressAcknowledged _ s0 s1 H1).
  rewrite (deliver_all_cons p AddressAcknowledged _ s1 s2 H2).
  rewrite (deliver_all_app p _ _ s2 s2)
    by (apply deliver_all_acknowledges_ignored; now rewrite Hp2).
  destruct (deliver_all_bytes p bs s2 Hlen) as (s3 & H3 & Hp3 & Hs3 & l3 & Ho3 & Hl3);
    [now rewrite Hp2 | now rewrite Hp2 |].
  rewrite Hp2 in Hp3. cbn in Hp3.
  rewrite (deliver_all_app p _ _ s2 s3 H3).
  destruct Hs1 as (Hv1 & He1 & Hq1), Hs2 as (Hv2 & He2 & Hq2),
    Hs3 as (Hv3 & He3 & Hq3).
  assert (I2C_EM_BLOCK < length (lowest_energy_modes s))%nat as Hin
    by (eapply lookup_lt_Some, Hc).
  destruct (Stop_Func_recieve_data p s3 (c + 1)) as (s4 & H4 & Hp4 & Hv4 & He4 & Hq4 & Ho4).
  { now rewrite Hp3. }
  { rewrite Hv3, Hv2, Hv1, Hv0. now apply list_lookup_insert_eq. }
  { unfold INT_MAX. change (2 ^ 31) with 2147483648. lia. }
  rewrite Hp3 in Hp4, He4, Ho4. cbn in Hp4, He4, Ho4.
  exists s4. split.
  { simpl. unfold bind.
    change (deliver p StopConditionObserved s3) with (I2C.Stop_Func p s3).
    now rewrite H4. }
  split; [exact Hp4|]. split.
  { rewrite Hv4, Hv3, Hv2, Hv1, Hv0.
    replace (c + 1 - 1) with c by lia.
    rewrite list_insert_insert_eq. now apply list_insert_id. }
  split; [rewrite He4, He3, He2, He1, He0; reflexivity|].
  split.
  { intros q Hq. now rewrite Hq4, Hq3, Hq2, Hq1, Hq0. }
  eexists. split.
  { rewrite Ho4, Ho3, Ho2, Ho1, Ho0. rewrite <- !app_assoc. reflexivity. }
  cbn. rewrite events_added_app, Hl3. reflexivity.
Qed.

End BusFacts.

(** C1, as amended: a read of N bytes, 1 <= N <= 4, started with
    [i2c_start] on an available instance and given the acknowledges of the
    address phase, N ByteAvailable sub-events and one StopConditionObserved,
    returns with the N bytes in the low 8N bits of the data word, most
    significant byte first (the bytes of the word above them are as before,
    so the word is the packed value when it started below 256^N), no byte
    remaining, [available] true again, the vote on [I2C_EM_BLOCK] released,
    and exactly one event, the registered one, posted to the scheduler. *)
Theorem read_transaction_packs_bytes
    (p : sm_pointer) (s : statics) (c : Z)
    (device_address desired_register_address app_cb data0 : Z)
    (bs : list Z) (extra_acks : nat) :
  available (pointee p s) = true ->
  lowest_energy_modes s !! I2C_EM_BLOCK = Some c -> 0 <= c < 4 ->
  (1 <= length bs <= 4)%nat ->
  Forall is_byte bs ->
  0 <= data0 < 2 ^ 32 ->
  exists s' : statics,
    (I2C.i2c_start (controller p) true device_address read data0
       (Z.of_nat (length bs)) desired_register_address app_cb >>
     deliver_all p
       ([AddressAcknowledged; AddressAcknowledged]
        ++ repeat AddressAcknowledged extra_acks
        ++ map ByteAvailable bs ++ [StopConditionObserved])) s = Done tt s' /\
    data (pointee p s') mod 256 ^ Z.of_nat (length bs) = be_value bs /\
    (forall m, Z.of_nat (length bs) <= m < 4 ->
       byte_of (data (pointee p s')) m = byte_of data0 m) /\
    (data0 < 256 ^ Z.of_nat (length bs) -> data (pointee p s') = be_value bs) /\
    num_of_data_bytes (pointee p s') = 0 /\
    available (pointee p s') = true /\
    current_state (pointee p s') = initialize_device_write /\
    lowest_energy_modes s' = lowest_energy_modes s /\
    event_scheduled s' = Z.lor (event_scheduled s) app_cb /\
    exists l : list observation,
      observed s' = observed s ++ l /\ events_added l = [app_cb].
Proof.
  intros Hav Hc Hrange Hlen Hbs Hd.
  destruct (read_transaction p s c device_address desired_register_address
              app_cb data0 bs extra_acks Hav Hc Hrange Hlen)
    as (s' & Hrun & Hp & Hv & He & _ & Hl).
  destruct (receive_into_value bs data0 ltac:(lia) Hbs Hd)
    as (Hval & Hhigh & Hsmall).
  exists s'. rewrite Hp. cbn.
  repeat (split; [assumption || reflexivity|]). exact Hl.
Qed.

Lemma read_transaction_packs_bytes_witness :
  exists s' : statics,
    (I2C.i2c_start I2C1 true 85 read 0 2 19 8 >>
     deliver_all ref_i2c1_state
       [AddressAcknowledged; AddressAcknowledged; AddressAcknowledged;
        ByteAvailable 0; ByteAvailable 10; StopConditionObserved])
      i2c1_opened
    = Done tt s' /\
    data (i2c1_state s') = 10 /\
    available (i2c1_state s') = true /\
    lowest_energy_modes s' = [0; 0; 0; 0; 0] /\
    event_scheduled s' = 8.
Proof.
  destruct (read_transaction_packs_bytes ref_i2c1_state
              i2c1_opened
              0 85 19 8 0 [0; 10] 1)
    as (s' & Hrun & _ & _ & Hdata & _ & Hav & _ & Hv & He & _).
  - reflexivity.
  - reflexivity.
  - lia.
  - simpl. lia.
  - repeat constructor; unfold is_byte; lia.
  - lia.
  - exists s'. split; [exact Hrun|]. split; [apply Hdata; reflexivity|].
    split; [exact Hav|]. split; [exact Hv | exact He].
Defined.

(** The address phase of a read takes two acknowledges: after a single one
    the machine is in [write_desired_register], where a ByteAvailable stops
    at the assertion. *)
Lemma byte_after_single_acknowledge_asserts :
  (I2C.i2c_start I2C1 true 85 read 0 2 19 8 >>
   deliver_all ref_i2c1_state
     [AddressAcknowledged; ByteAvailable 0; ByteAvailable 10;
      StopConditionObserved]) i2c1_opened = AssertFail.
Proof. vm_compute. reflexivity. Qed.

(** C1 as stated fails for N = 5: the fifth byte from the end has no place
    in the 32-bit word ([0xff << 32] is undefined), and the value of five
    bytes need not fit in 32 bits. *)
Lemma read_of_five_bytes_does_not_fit :
  (I2C.i2c_start I2C1 true 85 read 0 5 19 8 >>
   deliver_all ref_i2c1_state
     ([AddressAcknowledged; AddressAcknowledged]
      ++ map ByteAvailable [1; 0; 0; 0; 0] ++ [StopConditionObserved]))
    i2c1_opened
  = Undefined /\
  2 ^ 32 <= be_value [1; 0; 0; 0; 0].
Proof.
  split; [reflexivity | vm_compute; discriminate].
Qed.

Section AvailabilityFacts.

Implicit Types (p q : sm_pointer) (s : statics) (e : sub_event).

Ltac split_run H :=
  repeat match type of H with
  | context [match mode ?m with _ => _ end] => destruct (mode m)
  | context [match Sleep.sleep_unblock_mode ?a ?b with _ => _ end] =>
      destruct (Sleep.sleep_unblock_mode a b) as [[] ?| | |]
  | context [match Sleep.sleep_block_mode ?a ?b with _ => _ end] =>
      destruct (Sleep.sleep_block_mode a b) as [[] ?| | |]
  | context [if ?b then _ else _] => destruct b
  end.

(** What a sub-event that is accepted can do to the instances. *)
Lemma deliver_Done p e s s' :
  deliver p e s = Done tt s' ->
  (forall q, q <> p -> pointee q s' = pointee q s) /\
  (available (pointee p s') = available (pointee p s) \/
   (e = StopConditionObserved /\
    current_state (pointee p s) = recieve_data /\
    available (pointee p s') = true)).
Proof.
  intros H.
  destruct e;
    unfold deliver, I2C.Ack_Func, I2C.Rxdatav_Func, I2C.Stop_Func,
      I2C.deref, I2C.assign, I2C.observe, I2C.shift_count,
      I2C.add_scheduled_event, I2C.sleep_unblock_mode,
      Scheduler.add_scheduled_event,
      zoom, bind, ret, undefined, EFM_ASSERT, get, put in H;
    destruct (current_state (pointee p s)) eqn:Hst;
    split_run H; try discriminate; injection H as <-;
    (split; [intros q Hq; destruct p, q; congruence || reflexivity|]);
    first [left; destruct p; reflexivity
          |right; repeat split; destruct p; reflexivity].
Qed.

Lemma i2c_start_busy p s (idle : bool)
    (device_address : Z) (mode : OPERATION_MODE) (data bytes_expected : Z)
    (desired_register_address app_cb : Z) :
  available (pointee p s) = false ->
  I2C.i2c_start (controller p) idle device_address mode data bytes_expected
    desired_register_address app_cb s = Spin.
Proof.
  intros Hav. destruct p; unfold I2C.i2c_start, I2C.deref, bind, spin;
    cbn in *; now rewrite Hav.
Qed.

Lemma i2c_start_Done p s s' (idle : bool)
    (device_address : Z) (mode : OPERATION_MODE) (data bytes_expected : Z)
    (desired_register_address app_cb : Z) :
  I2C.i2c_start (controller p) idle device_address mode data bytes_expected
    desired_register_address app_cb s = Done tt s' ->
  available (pointee p s) = true /\
  available (pointee p s') = false /\
  current_state (pointee p s') = initialize_device_write /\
  forall q, q <> p -> pointee q s' = pointee q s.
Proof.
  intros H.
  destruct p;
    unfold I2C.i2c_start, I2C.deref, I2C.assign, I2C.observe,
      I2C.sleep_block_mode, zoom, bind, ret, spin, EFM_ASSERT in H;
    cbn in H;
    (destruct (available _) eqn:Hav; cbn in H; [|discriminate]);
    split_run H; try discriminate; injection H as <-;
    (split; [reflexivity|]); (split; [reflexivity|]); (split; [reflexivity|]);
    intros [] Hq; congruence || reflexivity.
Qed.

Lemma deliver_interleaved_cons (x : sm_pointer * sub_event) es s s' :
  deliver_interleaved (x :: es) s = Done tt s' ->
  exists s1, deliver (fst x) (snd x) s = Done tt s1 /\
             deliver_interleaved es s1 = Done tt s'.
Proof.
  destruct x as [q e]. simpl. unfold bind.
  destruct (deliver q e s) as [[] s1| | |]; try discriminate.
  intros H. now exists s1.
Qed.

(** Without the stop condition of the transaction in flight the instance
    stays unavailable. *)
Lemma unavailable_until_stop p (es : list (sm_pointer * sub_event)) :
  forall s s',
    deliver_interleaved es s = Done tt s' ->
    available (pointee p s) = false ->
    available (pointee p s') = false \/ In (p, StopConditionObserved) es.
Proof.
  induction es as [|[q e] es IH]; intros s s' Hrun Hav.
  - simpl in Hrun. injection Hrun as <-. now left.
  - apply deliver_interleaved_cons in Hrun as (s1 & H1 & Hrest). cbn in H1.
    apply deliver_Done in H1 as [Hother Hself].
    assert (q = p \/ q <> p) as [->|Hne]
      by (destruct p, q; (now left) || (now right)).
    + destruct Hself as [Hsame|(-> & _)]; [|right; now left].
      rewrite Hav in Hsame.
      destruct (IH s1 s' Hrest Hsame) as [|Hin]; [now left | right; now right].
    + destruct (IH s1 s' Hrest) as [|Hin]; [|now left | right; now right].
      rewrite Hother; [exact Hav | congruence].
Qed.

End AvailabilityFacts.

(** C5: [i2c_start] on an instance that is not available does not start a
    transaction (it waits in its loop); a start that is accepted found
    [available] true and leaves it false; among the sub-events of both
    controllers only the stop condition of the instance itself, taken in
    [recieve_data], makes [available] true again; a start on the other
    instance does not touch this one; so between two accepted starts on one
    instance lies the stop condition of the first. *)
Theorem transactions_serialized_by_available
    (p : sm_pointer) (s : statics) (idle : bool)
    (device_address : Z) (mode : OPERATION_MODE) (data bytes_expected : Z)
    (desired_register_address app_cb : Z) :
  (available (pointee p s) = false ->
   I2C.i2c_start (controller p) idle device_address mode data bytes_expected
     desired_register_address app_cb s = Spin)
  /\
  (forall s',
     I2C.i2c_start (controller p) idle device_address mode data bytes_expected
       desired_register_address app_cb s = Done tt s' ->
     available (pointee p s) = true /\ available (pointee p s') = false)
  /\
  (forall q e s',
     deliver q e s = Done tt s' ->
     available (pointee p s) = false -> available (pointee p s') = true ->
     q = p /\ e = StopConditionObserved /\
     current_state (pointee p s) = recieve_data)
  /\
  (forall q s' idle' device_address' mode' data' bytes_expected'
          desired_register_address' app_cb',
     q <> p ->
     I2C.i2c_start (controller q) idle' device_address' mode' data'
       bytes_expected' desired_register_address' app_cb' s = Done tt s' ->
     pointee p s' = pointee p s)
  /\
  (forall es s1 s2 s3 idle' device_address' mode' data' bytes_expected'
          desired_register_address' app_cb',
     I2C.i2c_start (controller p) idle device_address mode data bytes_expected
       desired_register_address app_cb s = Done tt s1 ->
     deliver_interleaved es s1 = Done tt s2 ->
     I2C.i2c_start (controller p) idle' device_address' mode' data'
       bytes_expected' desired_register_address' app_cb' s2 = Done tt s3 ->
     In (p, StopConditionObserved) es).
Proof.
  split; [apply i2c_start_busy|].
  split.
  { intros s' H. apply i2c_start_Done in H as (H1 & H2 & _). now split. }
  split.
  { intros q e s' H Hbefore Hafter.
    apply deliver_Done in H as [Hother Hself].
    assert (q = p \/ q <> p) as [->|Hne]
      by (destruct p, q; (now left) || (now right)).
    - destruct Hself as [Hsame|(-> & Hst & _)]; [congruence | now repeat split].
    - rewrite Hother in Hafter by congruence. congruence. }
  split.
  { intros q s' ? ? ? ? ? ? ? Hne H.
    apply i2c_start_Done in H as (_ & _ & _ & Hother).
    apply Hother. congruence. }
  intros es s1 s2 s3 ? ? ? ? ? ? ? Hfirst Hes Hsecond.
  apply i2c_start_Done in Hfirst as (_ & Hbusy & _).
  apply i2c_start_Done in Hsecond as (Hfree & _).
  destruct (unavailable_until_stop p es s1 s2 Hes Hbusy) as [Hstill|Hin];
    [congruence | exact Hin].
Qed.

Lemma transactions_serialized_by_available_witness :
  I2C.i2c_start I2C1 true 85 read 0 2 19 8 power_on = Spin /\
  In (ref_i2c1_state, StopConditionObserved)
    [(ref_i2c1_state, AddressAcknowledged);
     (ref_i2c1_state, AddressAcknowledged);
     (ref_i2c1_state, StopConditionObserved)].
Proof.
  split.
  - apply (transactions_serialized_by_available ref_i2c1_state power_on).
    reflexivity.
  - destruct (transactions_serialized_by_available ref_i2c1_state i2c1_opened
                true 85 write 17 1 11 0) as (_ & _ & _ & _ & Hserial).
    let s1 := eval vm_compute in
          (match I2C.i2c_start I2C1 true 85 write 17 1 11 0 i2c1_opened with
           | Done _ s => s
           | _ => power_on
           end) in
    let s2 := eval vm_compute in
          (match deliver_all ref_i2c1_state
                   [AddressAcknowledged; AddressAcknowledged;
                    StopConditionObserved] s1 with
           | Done _ s => s
           | _ => power_on
           end) in
    let s3 := eval vm_compute in
          (match I2C.i2c_start I2C1 true 85 read 0 2 19 8 s2 with
           | Done _ s => s
           | _ => power_on
           end) in
    apply (Hserial _ s1 s2 s3 true 85 read 0 2 19 8);
      vm_compute; reflexivity.
Defined.



(** C7, as amended: with n bytes remaining, 1 <= n <= 4 (the data buffer
    is one 32-bit word), an AddressAcknowledged in
    [write_data] (WritingData) leaves n - 1 remaining and writes byte n - 1
    of the data word to TXDATA, so the bytes go out most significant first;
    when none remains it also issues the stop command and moves to
    [recieve_data] (AwaitStop), otherwise it stays in [write_data].  A
    one-byte write is in [recieve_data] with no byte remaining after its
    second AddressAcknowledged, having sent the address byte, the register
    address, the data byte and the stop command. *)
Theorem write_data_sends_next_byte
    (p : sm_pointer) (s : statics) (n c : Z)
    (device_address desired_register_address app_cb data0 : Z) :
  (current_state (pointee p s) = write_data ->
   num_of_data_bytes (pointee p s) = n -> 1 <= n <= 4 ->
   exists s' : statics,
     deliver p AddressAcknowledged s = Done tt s' /\
     num_of_data_bytes (pointee p s') = n - 1 /\
     data (pointee p s') = data (pointee p s) /\
     current_state (pointee p s') =
       (if n =? 1 then recieve_data else write_data) /\
     observed s' = observed s ++
       TXDATA_written (i2cx (pointee p s)) (byte_of (data (pointee p s)) (n - 1))
       :: (if n =? 1 then [CMD_written (i2cx (pointee p s)) I2C_CMD_STOP]
           else []))
  /\
  (available (pointee p s) = true ->
   lowest_energy_modes s !! I2C_EM_BLOCK = Some c -> 0 <= c < 4 ->
   exists s' : statics,
     (I2C.i2c_start (controller p) true device_address write data0 1
        desired_register_address app_cb >>
      deliver_all p [AddressAcknowledged; AddressAcknowledged]) s
     = Done tt s' /\
     current_state (pointee p s') = recieve_data /\
     num_of_data_bytes (pointee p s') = 0 /\
     observed s' = observed s ++
       [CMD_written (controller p) I2C_CMD_START;
        TXDATA_written (controller p)
          (Z.lor (wrap32 (Z.shiftl device_address 1)) 0);
        TXDATA_written (controller p) desired_register_address;
        TXDATA_written (controller p) (byte_of data0 0);
        CMD_written (controller p) I2C_CMD_STOP]).
Proof.
  split.
  - intros Hst Hn Hrange.
    destruct (Ack_Func_write_data p s n Hst Hn Hrange)
      as (s' & Hrun & Hp & _ & Hobs).
    exists s'. split; [exact Hrun|]. rewrite Hp.
    repeat split; try reflexivity. exact Hobs.
  - intros Hav Hc Hrange.
    destruct (i2c_start_accepted p s c device_address write data0 1
                desired_register_address app_cb Hav Hc Hrange)
      as (s0 & Hstart & Hp0 & _ & _ & _ & Ho0).
    unfold bind at 1. rewrite Hstart.
    destruct (Ack_Func_initialize_device_write p s0)
      as (s1 & H1 & Hp1 & _ & Ho1); [now rewrite Hp0|].
    rewrite Hp0 in Hp1, Ho1. cbn in Hp1, Ho1.
    destruct (Ack_Func_write_data p s1 1) as (s2 & H2 & Hp2 & _ & Ho2);
      [now rewrite Hp1 | now rewrite Hp1 | lia |].
    rewrite Hp1 in Hp2, Ho2. cbn in Hp2, Ho2.
    rewrite (deliver_all_cons p AddressAcknowledged _ s0 s1 H1).
    rewrite (deliver_all_cons p AddressAcknowledged _ s1 s2 H2).
    exists s2. split; [reflexivity|]. rewrite Hp2.
    split; [reflexivity|]. split; [reflexivity|].
    rewrite Ho2, Ho1, Ho0, <- !app_assoc. reflexivity.
Qed.

Lemma write_data_sends_next_byte_witness :
  (exists s' : statics,
     deliver ref_i2c0_state AddressAcknowledged
       (with_i2c0_state
          {| i2cx := I2C0; device_address := 85; available := false;
             mode := write; num_of_data_bytes := 2;
             desired_register_address := 11; data := 4660; I2C_CB := 0;
             current_state := write_data |} power_on) = Done tt s' /\
     num_of_data_bytes (i2c0_state s') = 1 /\
     current_state (i2c0_state s') = write_data /\
     observed s' = [TXDATA_written I2C0 18])
  /\
  (exists s' : statics,
     (I2C.i2c_start I2C1 true 85 write 17 1 11 0 >>
      deliver_all ref_i2c1_state [AddressAcknowledged; AddressAcknowledged])
       i2c1_opened = Done tt s' /\
     current_state (i2c1_state s') = recieve_data /\
     num_of_data_bytes (i2c1_state s') = 0 /\
     observed s' =
       [CMD_written I2C1 I2C_CMD_START; TXDATA_written I2C1 170;
        TXDATA_written I2C1 11; TXDATA_written I2C1 17;
        CMD_written I2C1 I2C_CMD_STOP]).
Proof.
  split.
  - destruct (write_data_sends_next_byte ref_i2c0_state
                (with_i2c0_state
                   {| i2cx := I2C0; device_address := 85; available := false;
                      mode := write; num_of_data_bytes := 2;
                      desired_register_address := 11; data := 4660;
                      I2C_CB := 0; current_state := write_data |} power_on)
                2 0 0 0 0 0) as [Hstep _].
    destruct Hstep as (s' & Hrun & Hn & _ & Hst & Hobs);
      [reflexivity | reflexivity | lia |].
    exists s'. split; [exact Hrun|]. split; [exact Hn|].
    split; [exact Hst | exact Hobs].
  - destruct (write_data_sends_next_byte ref_i2c1_state i2c1_opened
                1 0 85 11 0 17) as [_ Hwrite].
    destruct Hwrite as (s' & Hrun & Hst & Hn & Hobs);
      [reflexivity | reflexivity | lia |].
    exists s'. split; [exact Hrun|]. split; [exact Hst|].
    split; [exact Hn | exact Hobs].
Defined.

(** C7 as stated fails for a write of five bytes: after the first
    acknowledge the machine is in [write_data] (WritingData) with five bytes
    remaining, and the next AddressAcknowledged shifts the 32-bit data word
    by 32 bits, which is undefined: the fifth byte from the end has no place
    in the word.  A write of no byte fails likewise (the count wraps). *)
Lemma write_of_five_bytes_is_undefined :
  (exists s : statics,
     (I2C.i2c_start I2C1 true 85 write 17 5 11 0 >>
      deliver_all ref_i2c1_state [AddressAcknowledged]) i2c1_opened
     = Done tt s /\
     current_state (pointee ref_i2c1_state s) = write_data /\
     num_of_data_bytes (pointee ref_i2c1_state s) = 5 /\
     deliver ref_i2c1_state AddressAcknowledged s = Undefined)
  /\
  (exists s : statics,
     (I2C.i2c_start I2C1 true 85 write 17 0 11 0 >>
      deliver_all ref_i2c1_state [AddressAcknowledged]) i2c1_opened
     = Done tt s /\
     current_state (pointee ref_i2c1_state s) = write_data /\
     num_of_data_bytes (pointee ref_i2c1_state s) = 0 /\
     deliver ref_i2c1_state AddressAcknowledged s = Undefined).
Proof.
  split; (eexists; split; [reflexivity|]; repeat split).
Qed.

(** * Further properties of the three modules *)

(** ** The arbiter *)

Lemma perform_in_range (a : arbiter_call) (v : list Z) (c : Z) :
  v !! level_of a = Some c -> counter_ok c ->
  perform a v =
    if passes a c then Done tt (<[level_of a := counter_after a c]> v)
    else AssertFail.
Proof.
  intros Hc Hok. unfold counter_ok in Hok.
  destruct a as [EM|EM]; cbn [perform passes counter_after level_of] in *.
  - destruct (Z.ltb_spec (c + 1) 5).
    + apply sleep_block_mode_ok; [exact Hc | lia].
    + apply (sleep_block_mode_full EM c); [exact Hc|].
      unfold INT_MAX. change (2 ^ 31) with 2147483648. lia.
  - destruct (Z.leb_spec 0 (c - 1)).
    + apply sleep_unblock_mode_ok; [exact Hc|].
      unfold INT_MAX. change (2 ^ 31) with 2147483648. lia.
    + apply (sleep_unblock_mode_underflow EM c); [exact Hc|].
      unfold INT_MIN. change (2 ^ 31) with 2147483648. lia.
Qed.

(** X1: a block followed by an unblock of the same level, and an unblock
    followed by a block, leave every counter as it was (when the assertions
    pass: fewer than four votes before the block, at least one before the
    unblock). *)
Theorem block_unblock_round_trip (v : list Z) (EM : nat) (c : Z) :
  v !! EM = Some c ->
  (0 <= c < 4 ->
   (Sleep.sleep_block_mode EM >> Sleep.sleep_unblock_mode EM) v = Done tt v)
  /\
  (0 < c <= 4 ->
   (Sleep.sleep_unblock_mode EM >> Sleep.sleep_block_mode EM) v = Done tt v).
Proof.
  intros Hc.
  assert (EM < length v)%nat as Hin by (eapply lookup_lt_Some, Hc).
  split; intros Hrange; unfold bind.
  - rewrite (sleep_block_mode_ok EM c v Hc Hrange).
    rewrite (sleep_unblock_mode_ok EM (c + 1) (<[EM:=c + 1]> v)).
    + rewrite list_insert_insert_eq. replace (c + 1 - 1) with c by lia.
      now rewrite list_insert_id.
    + now apply list_lookup_insert_eq.
    + unfold INT_MAX. change (2 ^ 31) with 2147483648. lia.
  - rewrite (sleep_unblock_mode_ok EM c v Hc).
    + rewrite (sleep_block_mode_ok EM (c - 1) (<[EM:=c - 1]> v)).
      * rewrite list_insert_insert_eq. replace (c - 1 + 1) with c by lia.
        now rewrite list_insert_id.
      * now apply list_lookup_insert_eq.
      * lia.
    + unfold INT_MAX. change (2 ^ 31) with 2147483648. lia.
Qed.

Lemma block_unblock_round_trip_witness :
  (Sleep.sleep_block_mode 2 >> Sleep.sleep_unblock_mode 2) [0; 0; 3; 1; 0]
  = Done tt [0; 0; 3; 1; 0] /\
  (Sleep.sleep_unblock_mode 3 >> Sleep.sleep_block_mode 3) [0; 0; 3; 1; 0]
  = Done tt [0; 0; 3; 1; 0].
Proof.
  split.
  - apply (block_unblock_round_trip [0; 0; 3; 1; 0] 2 3); [reflexivity | lia].
  - apply (block_unblock_round_trip [0; 0; 3; 1; 0] 3 1); [reflexivity | lia].
Defined.

(** X2: a level holds at most four votes: [n] further blocks of a level that
    holds [c] votes all return when [c + n <= 4], leaving [c + n], and stop
    at the assertion otherwise. *)
Theorem blocks_bounded_by_four (n : nat) : forall (v : list Z) (EM : nat) (c : Z),
  v !! EM = Some c -> 0 <= c <= 4 ->
  perform_all (repeat (block EM) n) v =
    if c + Z.of_nat n <? 5 then Done tt (<[EM:=c + Z.of_nat n]> v)
    else AssertFail.
Proof.
  induction n as [|n IH]; intros v EM c Hc Hrange.
  - cbn [repeat perform_all]. destruct (Z.ltb_spec (c + Z.of_nat 0) 5); [|lia].
    rewrite Z.add_0_r. now rewrite list_insert_id.
  - cbn [repeat perform_all]. unfold bind.
    rewrite (perform_in_range (block EM) v c Hc) by (unfold counter_ok; lia).
    cbn [passes counter_after level_of].
    destruct (Z.ltb_spec (c + 1) 5) as [Hlt|Hge].
    + rewrite (IH (<[EM:=c + 1]> v) EM (c + 1)).
      * replace (c + 1 + Z.of_nat n) with (c + Z.of_nat (S n)) by lia.
        now rewrite list_insert_insert_eq.
      * apply list_lookup_insert_eq. eapply lookup_lt_Some, Hc.
      * lia.
    + destruct (Z.ltb_spec (c + Z.of_nat (S n)) 5); [lia | reflexivity].
Qed.

Lemma blocks_bounded_by_four_witness :
  perform_all (repeat (block 2) 4) [0; 0; 0; 1; 0] = Done tt [0; 0; 4; 1; 0] /\
  perform_all (repeat (block 2) 5) [0; 0; 0; 1; 0] = AssertFail.
Proof.
  split.
  - apply (blocks_bounded_by_four 4 [0; 0; 0; 1; 0] 2 0); [reflexivity | lia].
  - apply (blocks_bounded_by_four 5 [0; 0; 0; 1; 0] 2 0); [reflexivity | lia].
Defined.

(** X3: calls on different levels commute: with counters in [0, 5) and both
    levels inside the array, the two orders give the same outcome, the same
    counters when both calls return and a failed assertion otherwise. *)
Theorem calls_on_different_levels_commute
    (a b : arbiter_call) (v : list Z) :
  level_of a <> level_of b ->
  (level_of a < length v)%nat -> (level_of b < length v)%nat ->
  Forall counter_ok v ->
  (perform a >> perform b) v = (perform b >> perform a) v.
Proof.
  intros Hne Ha Hb Hv.
  apply lookup_lt_is_Some in Ha as [ca Hca].
  apply lookup_lt_is_Some in Hb as [cb Hcb].
  pose proof (proj1 (Forall_lookup _ _) Hv _ _ Hca) as Hoka.
  pose proof (proj1 (Forall_lookup _ _) Hv _ _ Hcb) as Hokb.
  unfold bind.
  rewrite (perform_in_range a v ca Hca Hoka), (perform_in_range b v cb Hcb Hokb).
  destruct (passes a ca) eqn:Hpa, (passes b cb) eqn:Hpb; try reflexivity.
  - rewrite (perform_in_range b _ cb), (perform_in_range a _ ca), Hpa, Hpb;
      try assumption; try (rewrite list_lookup_insert_ne; congruence).
    f_equal. apply list_insert_insert_ne. congruence.
  - rewrite (perform_in_range b _ cb), Hpb;
      try assumption; try (rewrite list_lookup_insert_ne; congruence).
    reflexivity.
  - rewrite (perform_in_range a _ ca), Hpa;
      try assumption; try (rewrite list_lookup_insert_ne; congruence).
    reflexivity.
Qed.

Lemma calls_on_different_levels_commute_witness :
  (perform (block 2) >> perform (unblock 3)) [0; 0; 0; 1; 0]
  = (perform (unblock 3) >> perform (block 2)) [0; 0; 0; 1; 0].
Proof.
  apply (calls_on_different_levels_commute (block 2) (unblock 3)
           [0; 0; 0; 1; 0]).
  - discriminate.
  - simpl. lia.
  - simpl. lia.
  - repeat constructor; unfold counter_ok; lia.
Defined.

(** X4: a block that returns makes [current_block_energy_mode] the shallower
    of the level it returned before and the level just blocked (counters not
    negative). *)
Theorem block_lowers_block_mode
    (MAX_ENERGY_MODES : nat) (v v' : list Z) (EM r : nat) :
  length v = MAX_ENERGY_MODES ->
  Forall (fun c => 0 <= c) v ->
  Sleep.sleep_block_mode EM v = Done tt v' ->
  Sleep.current_block_energy_mode MAX_ENERGY_MODES v = Done r v ->
  Sleep.current_block_energy_mode MAX_ENERGY_MODES v' = Done (Nat.min r EM) v'.
Proof.
  intros Hlen Hv Hblock Hr.
  apply sleep_block_mode_Done in Hblock as (c & Hc & _ & ->).
  pose proof (proj1 (Forall_lookup _ _) Hv _ _ Hc) as Hc0. cbn in Hc0.
  assert (EM < length v)%nat as Hin by (eapply lookup_lt_Some, Hc).
  destruct (current_block_energy_mode_spec MAX_ENERGY_MODES v Hlen)
    as (r0 & Hr0 & Hspec).
  rewrite Hr in Hr0. injection Hr0 as <-.
  destruct (current_block_energy_mode_spec MAX_ENERGY_MODES (<[EM:=c + 1]> v))
    as (r' & Hr' & Hspec'); [now rewrite length_insert|].
  rewrite Hr'. f_equal.
  assert (<[EM:=c + 1]> v !! EM = Some (c + 1)) as Hnew
    by now apply list_lookup_insert_eq.
  pose proof (shallowest_blocked_below _ _ _ _ _ Hspec' Hnew ltac:(lia)) as Hle.
  destruct Hspec' as [(Hlt' & (c' & Hc' & Hne') & Hz')|[Hall' _]].
  2:{ rewrite length_insert in Hall'. specialize (Hall' EM Hin).
      rewrite Hnew in Hall'. injection Hall' as Hall'. lia. }
  destruct (Nat.eq_dec r' EM) as [->|Hneq].
  - (* the blocked level is now the shallowest *)
    assert (EM <= r)%nat; [|lia].
    destruct Hspec as [(_ & (x & Hx & Hxne) & _)|[_ ->]]; [|lia].
    destruct (Nat.le_gt_cases EM r) as [|Hlt]; [assumption|].
    specialize (Hz' r Hlt). rewrite list_lookup_insert_ne in Hz' by lia.
    congruence.
  - (* a shallower level was blocked before *)
    rewrite list_lookup_insert_ne in Hc' by lia.
    pose proof (shallowest_blocked_below _ _ _ _ _ Hspec Hc' Hne') as Hrle.
    assert (r = r'); [|lia].
    destruct Hspec as [(_ & (x & Hx & Hxne) & _)|[Hall _]].
    + destruct (Nat.eq_dec r r') as [|Hd]; [assumption|].
      specialize (Hz' r ltac:(lia)).
      rewrite list_lookup_insert_ne in Hz' by lia. congruence.
    + rewrite length_insert in Hlt'. specialize (Hall r' Hlt'). congruence.
Qed.

Lemma block_lowers_block_mode_witness :
  Sleep.current_block_energy_mode 5 [0; 0; 1; 1; 0]
  = Done (Nat.min 3 2) [0; 0; 1; 1; 0].
Proof.
  apply (block_lowers_block_mode 5 [0; 0; 0; 1; 0] [0; 0; 1; 1; 0] 2 3).
  - reflexivity.
  - repeat constructor; lia.
  - reflexivity.
  - reflexivity.
Defined.

(** X5: whatever the counters held, after [sleep_open]
    [current_block_energy_mode] returns the deepest level and, with at least
    five energy modes, [enter_sleep] enters EM3: the counter [sleep_open]
    leaves alone cannot keep the processor awake. *)
Theorem sleep_open_allows_deepest (MAX_ENERGY_MODES : nat) (v : list Z) :
  length v = MAX_ENERGY_MODES ->
  (5 <= MAX_ENERGY_MODES)%nat ->
  exists v' : list Z,
    Sleep.sleep_open MAX_ENERGY_MODES v = Done tt v' /\
    Sleep.current_block_energy_mode MAX_ENERGY_MODES v'
      = Done (MAX_ENERGY_MODES - 1)%nat v' /\
    Sleep.enter_sleep v' = Done (Some (EMU_EnterEM3 true)) v'.
Proof.
  intros Hlen Hmax.
  destruct (sleep_open_loop_spec (MAX_ENERGY_MODES - 1) 0 v)
    as (v' & Hrun & Hl & Hin & _); [lia|].
  exists v'. split; [exact Hrun|]. split.
  - destruct (current_block_energy_mode_spec MAX_ENERGY_MODES v')
      as (r & Hr & Hspec); [lia|].
    rewrite Hr. f_equal.
    destruct Hspec as [(Hlt & (c & Hc & Hne) & _)|[_ ->]]; [|reflexivity].
    destruct (Nat.eq_dec r (MAX_ENERGY_MODES - 1)%nat) as [|Hd]; [assumption|].
    rewrite Hin in Hc by lia. congruence.
  - rewrite (enter_sleep_cascade v' 0 0 0 0);
      [reflexivity | | | |]; apply Hin; unfold EM0, EM1, EM2, EM3; lia.
Qed.

Lemma sleep_open_allows_deepest_witness :
  exists v' : list Z,
    Sleep.sleep_open 5 [2; 0; 1; 4; 3] = Done tt v' /\
    Sleep.current_block_energy_mode 5 v' = Done (5 - 1)%nat v' /\
    Sleep.enter_sleep v' = Done (Some (EMU_EnterEM3 true)) v'.
Proof.
  apply (sleep_open_allows_deepest 5 [2; 0; 1; 4; 3]); [reflexivity | lia].
Defined.

(** ** The scheduler *)

Lemma testbit_above_32 (x i : Z) :
  0 <= x < 2 ^ 32 -> 32 <= i -> Z.testbit x i = false.
Proof.
  intros Hx Hi. rewrite <- (Z.mod_small x (2 ^ 32)) by exact Hx.
  apply Z.mod_pow2_bits_high. lia.
Qed.

(** X6: [remove_scheduled_event] clears every bit of its event, however
    often the event was posted, and no bit of an event that shares none with
    it. *)
Theorem remove_clears_only_its_event (pending e f : Z) :
  0 <= pending < 2 ^ 32 ->
  exists r : Z,
    (Scheduler.remove_scheduled_event e >> Scheduler.get_scheduled_events)
      pending = Done r r /\
    Z.land r e = 0 /\
    (Z.land f e = 0 -> Z.land r f = Z.land pending f).
Proof.
  intros Hp. eexists. split; [reflexivity|]. unfold wrap32. split.
  - apply Z.bits_inj'. intros i Hi.
    rewrite !Z.land_spec, Z.testbit_mod_pow2, Z.lnot_spec, Z.bits_0 by lia.
    destruct (Z.testbit pending i), (Z.testbit e i), (i <? 32); reflexivity.
  - intros Hdis. apply Z.bits_inj'. intros i Hi.
    apply (f_equal (fun z => Z.testbit z i)) in Hdis.
    rewrite Z.land_spec, Z.bits_0 in Hdis.
    rewrite !Z.land_spec, Z.testbit_mod_pow2, Z.lnot_spec by lia.
    destruct (Z.ltb_spec i 32).
    + destruct (Z.testbit pending i), (Z.testbit e i), (Z.testbit f i);
        cbn in *; congruence.
    + now rewrite (testbit_above_32 pending i) by lia.
Qed.

Lemma remove_clears_only_its_event_witness :
  exists r : Z,
    (Scheduler.remove_scheduled_event 8 >> Scheduler.get_scheduled_events) 25
    = Done r r /\
    Z.land r 8 = 0 /\
    (Z.land 16 8 = 0 -> Z.land r 16 = Z.land 25 16).
Proof.
  apply (remove_clears_only_its_event 25 8 16). lia.
Defined.

(** X7: an event posted while another one is being serviced is not lost:
    posting [f] and removing an event [e] that shares no bit with it give the
    same pending mask in either order, and [f] is pending afterwards. *)
Theorem posting_commutes_with_removal_of_another (pending e f : Z) :
  0 <= f < 2 ^ 32 -> Z.land f e = 0 ->
  (Scheduler.add_scheduled_event f >> Scheduler.remove_scheduled_event e)
    pending
  = (Scheduler.remove_scheduled_event e >> Scheduler.add_scheduled_event f)
      pending
  /\
  exists r : Z,
    (Scheduler.add_scheduled_event f >> Scheduler.remove_scheduled_event e >>
     Scheduler.get_scheduled_events) pending = Done r r /\
    Z.land r f = f.
Proof.
  intros Hf Hdis.
  assert (forall i, 0 <= i ->
            Z.testbit f i && ((i <? 32) && negb (Z.testbit e i))
            = Z.testbit f i) as Hbit.
  { intros i Hi. apply (f_equal (fun z => Z.testbit z i)) in Hdis.
    rewrite Z.land_spec, Z.bits_0 in Hdis.
    destruct (Z.ltb_spec i 32).
    - destruct (Z.testbit f i), (Z.testbit e i); cbn in *; congruence.
    - rewrite (testbit_above_32 f i) by lia. reflexivity. }
  split.
  - unfold Scheduler.add_scheduled_event, Scheduler.remove_scheduled_event,
      bind, get, put, wrap32. f_equal.
    apply Z.bits_inj'. intros i Hi.
    rewrite Z.land_spec, !Z.lor_spec, Z.land_spec, Z.testbit_mod_pow2,
      Z.lnot_spec by lia.
    rewrite andb_orb_distrib_l, Hbit by exact Hi. reflexivity.
  - eexists. split; [reflexivity|]. unfold wrap32.
    apply Z.bits_inj'. intros i Hi.
    rewrite !Z.land_spec, Z.lor_spec, Z.testbit_mod_pow2, Z.lnot_spec by lia.
    rewrite <- (Hbit i Hi) at 3.
    destruct (Z.testbit pending i), (Z.testbit f i), (i <? 32),
      (Z.testbit e i); reflexivity.
Qed.

Lemma posting_commutes_with_removal_of_another_witness :
  (Scheduler.add_scheduled_event 16 >> Scheduler.remove_scheduled_event 8) 9
  = (Scheduler.remove_scheduled_event 8 >> Scheduler.add_scheduled_event 16) 9
  /\
  exists r : Z,
    (Scheduler.add_scheduled_event 16 >> Scheduler.remove_scheduled_event 8 >>
     Scheduler.get_scheduled_events) 9 = Done r r /\
    Z.land r 16 = 16.
Proof.
  apply (posting_commutes_with_removal_of_another 9 8 16);
    [lia | reflexivity].
Defined.

Lemma post_all_mask (events : list Z) : forall pending : Z,
  post_all events pending
  = Done tt (Z.lor pending (fold_right Z.lor 0 events)).
Proof.
  induction events as [|e events IH]; intros pending.
  - simpl. now rewrite Z.lor_0_r.
  - cbn [post_all fold_right]. unfold bind.
    unfold Scheduler.add_scheduled_event at 1. unfold bind, get, put.
    rewrite IH. now rewrite Z.lor_assoc.
Qed.

(** X8: posted events coalesce: after [scheduler_open] and any number of
    [add_scheduled_event] calls the pending mask is the bitwise OR of the
    posted events, so it depends neither on the order of the calls nor on
    how often an event was posted. *)
Theorem pending_mask_is_union (events events' : list Z) (stale : Z) :
  (Scheduler.scheduler_open >> post_all events >>
   Scheduler.get_scheduled_events) stale
  = Done (fold_right Z.lor 0 events) (fold_right Z.lor 0 events)
  /\
  ((forall e, In e events <-> In e events') ->
   (Scheduler.scheduler_open >> post_all events) stale
   = (Scheduler.scheduler_open >> post_all events') stale).
Proof.
  assert (forall l,
            (Scheduler.scheduler_open >> post_all l) stale
            = Done tt (fold_right Z.lor 0 l)) as Hrun.
  { intros l. unfold bind, Scheduler.scheduler_open, put.
    now rewrite post_all_mask. }
  split.
  - unfold bind, Scheduler.scheduler_open, put.
    now rewrite post_all_mask.
  - intros Hsame. rewrite !Hrun. f_equal.
    apply Z.bits_inj'. intros i Hi.
    assert (forall l, Z.testbit (fold_right Z.lor 0 l) i = true <->
                      exists e, In e l /\ Z.testbit e i = true) as Hbits.
    { induction l as [|x l IH]; simpl.
      - rewrite Z.bits_0. split; [discriminate | intros (? & [] & _)].
      - rewrite Z.lor_spec, orb_true_iff, IH. split.
        + intros [Hx|(e & He & Hb)]; [exists x; auto | exists e; auto].
        + intros (e & [<-|He] & Hb); [now left | right; now exists e]. }
    apply eq_true_iff_eq. rewrite !Hbits.
    split; intros (e & He & Hb); exists e; (split; [now apply Hsame | exact Hb]).
Qed.

Lemma pending_mask_is_union_witness :
  (Scheduler.scheduler_open >> post_all [8; 1; 8]) 77
  = (Scheduler.scheduler_open >> post_all [1; 8]) 77.
Proof.
  apply (pending_mask_is_union [8; 1; 8] [1; 8] 77).
  intros e. simpl. tauto.
Defined.

(** ** The bus state machine *)

Lemma bind_Done {S A B} (m : M S A) (k : A -> M S B) (x x' : S) (b : B) :
  bind m k x = Done b x' ->
  exists a x1, m x = Done a x1 /\ k a x1 = Done b x'.
Proof.
  unfold bind. destruct (m x) as [a x1| | |]; try discriminate.
  intros H. now exists a, x1.
Qed.

Section BusExtras.

Implicit Types (p q : sm_pointer) (s : statics) (e : sub_event).

Lemma bytes_be_length (d : Z) (n : nat) : length (bytes_be d n) = n.
Proof. induction n as [|n IH]; [reflexivity | simpl; now rewrite IH]. Qed.

Lemma bytes_be_nth (d : Z) (n : nat) : forall i : nat,
  (i < n)%nat -> nth i (bytes_be d n) 0 = byte_of d (Z.of_nat (n - 1 - i)).
Proof.
  induction n as [|n IH]; intros i Hi; [lia|].
  destruct i as [|i]; cbn [bytes_be nth].
  - f_equal. lia.
  - rewrite IH by lia. f_equal. lia.
Qed.

Lemma bytes_be_value_of_word (d : Z) (n : nat) :
  be_value (bytes_be d n) = d mod 256 ^ Z.of_nat n.
Proof.
  rewrite <- (bytes_be_length d n) at 2. symmetry. apply bytes_be_value.
  intros i Hi. rewrite bytes_be_length in *. symmetry. now apply bytes_be_nth.
Qed.

(** The data phase of a write: as many acknowledges as bytes remain. *)
Lemma deliver_all_write_acknowledges p (k : nat) : forall s,
  (S k <= 4)%nat ->
  current_state (pointee p s) = write_data ->
  num_of_data_bytes (pointee p s) = Z.of_nat (S k) ->
  exists s',
    deliver_all p (repeat AddressAcknowledged (S k)) s = Done tt s' /\
    pointee p s' =
      with_current_state recieve_data
        (with_num_of_data_bytes 0 (pointee p s)) /\
    same_elsewhere p s s' /\
    observed s' = observed s ++
      map (TXDATA_written (i2cx (pointee p s)))
          (bytes_be (data (pointee p s)) (S k))
      ++ [CMD_written (i2cx (pointee p s)) I2C_CMD_STOP].
Proof.
  induction k as [|k IH]; intros s Hk Hst Hn.
  - destruct (Ack_Func_write_data p s 1 Hst Hn) as (s1 & H1 & Hp1 & Hs1 & Ho1);
      [lia|].
    exists s1. cbn [repeat].
    rewrite (deliver_all_cons p AddressAcknowledged [] s s1 H1).
    split; [reflexivity|]. split; [exact Hp1|]. split; [exact Hs1|]. exact Ho1.
  - destruct (Ack_Func_write_data p s _ Hst Hn) as (s1 & H1 & Hp1 & Hs1 & Ho1);
      [lia|].
    destruct (Z.eqb_spec (Z.of_nat (S (S k))) 1) as [Heq|_]; [lia|].
    replace (Z.of_nat (S (S k)) - 1) with (Z.of_nat (S k)) in * by lia.
    destruct (IH s1) as (s' & Hrun & Hp' & Hs' & Ho');
      [lia | now rewrite Hp1 | now rewrite Hp1 |].
    exists s'. cbn [repeat].
    rewrite (deliver_all_cons p AddressAcknowledged _ s s1 H1).
    split; [exact Hrun|]. split; [rewrite Hp', Hp1; reflexivity|].
    split; [eapply same_elsewhere_trans; eassumption|].
    rewrite Ho', Ho1, Hp1, <- app_assoc. reflexivity.
Qed.

Lemma deliver_all_acknowledges_after_last p (k : nat) s :
  current_state (pointee p s) = recieve_data ->
  deliver_all p (repeat AddressAcknowledged k) s = Done tt s.
Proof.
  intros Hst. induction k as [|k IH]; [reflexivity|].
  cbn [repeat].
  rewrite (deliver_all_cons p AddressAcknowledged _ s s); [exact IH|].
  apply Ack_Func_ignored. now right.
Qed.

Lemma write_transaction p s (c : Z)
    (device_address desired_register_address app_cb d : Z)
    (n extra_acks : nat) :
  available (pointee p s) = true ->
  lowest_energy_modes s !! I2C_EM_BLOCK = Some c -> 0 <= c < 4 ->
  (1 <= n <= 4)%nat ->
  exists s',
    (I2C.i2c_start (controller p) true device_address write d (Z.of_nat n)
       desired_register_address app_cb >>
     deliver_all p
       (AddressAcknowledged :: repeat AddressAcknowledged n
        ++ repeat AddressAcknowledged extra_acks
        ++ [StopConditionObserved])) s = Done tt s' /\
    pointee p s' =
      {| i2cx := controller p; device_address := device_address;
         available := true; mode := write; num_of_data_bytes := 0;
         desired_register_address := desired_register_address;
         data := d; I2C_CB := app_cb;
         current_state := initialize_device_write |} /\
    lowest_energy_modes s' = lowest_energy_modes s /\
    event_scheduled s' = Z.lor (event_scheduled s) app_cb /\
    (forall q, q <> p -> pointee q s' = pointee q s) /\
    observed s' = observed s ++
      [CMD_written (controller p) I2C_CMD_START;
       TXDATA_written (controller p)
         (Z.lor (wrap32 (Z.shiftl device_address 1)) 0);
       TXDATA_written (controller p) desired_register_address]
      ++ map (TXDATA_written (controller p)) (bytes_be d n)
      ++ [CMD_written (controller p) I2C_CMD_STOP; event_added app_cb].
Proof.
  intros Hav Hc Hrange Hn.
  destruct (i2c_start_accepted p s c device_address write d (Z.of_nat n)
              desired_register_address app_cb Hav Hc Hrange)
    as (s0 & Hstart & Hp0 & Hv0 & He0 & Hq0 & Ho0).
  unfold bind at 1. rewrite Hstart.
  destruct (Ack_Func_initialize_device_write p s0)
    as (s1 & H1 & Hp1 & Hs1 & Ho1); [now rewrite Hp0|].
  rewrite Hp0 in Hp1, Ho1. cbn in Hp1, Ho1.
  rewrite (deliver_all_cons p AddressAcknowledged _ s0 s1 H1).
  destruct n as [|k]; [lia|].
  destruct (deliver_all_write_acknowledges p k s1)
    as (s2 & H2 & Hp2 & Hs2 & Ho2);
    [lia | now rewrite Hp1 | now rewrite Hp1 |].
  rewrite Hp1 in Hp2, Ho2. cbn in Hp2. cbn [i2cx data] in Ho2.
  rewrite (deliver_all_app p _ _ s1 s2 H2).
  rewrite (deliver_all_app p _ _ s2 s2)
    by (apply deliver_all_acknowledges_after_last; now rewrite Hp2).
  destruct Hs1 as (Hv1 & He1 & Hq1), Hs2 as (Hv2 & He2 & Hq2).
  assert (I2C_EM_BLOCK < length (lowest_energy_modes s))%nat as Hin
    by (eapply lookup_lt_Some, Hc).
  destruct (Stop_Func_recieve_data p s2 (c + 1))
    as (s3 & H3 & Hp3 & Hv3 & He3 & Hq3 & Ho3).
  { now rewrite Hp2. }
  { rewrite Hv2, Hv1, Hv0. now apply list_lookup_insert_eq. }
  { unfold INT_MAX. change (2 ^ 31) with 2147483648. lia. }
  rewrite Hp2 in Hp3, He3, Ho3. cbn in Hp3, He3, Ho3.
  exists s3. split.
  { simpl. unfold bind.
    change (deliver p StopConditionObserved s2) with (I2C.Stop_Func p s2).
    now rewrite H3. }
  split; [exact Hp3|]. split.
  { rewrite Hv3, Hv2, Hv1, Hv0. replace (c + 1 - 1) with c by lia.
    rewrite list_insert_insert_eq. now apply list_insert_id. }
  split; [rewrite He3, He2, He1, He0; reflexivity|].
  split.
  { intros q Hq. now rewrite Hq3, Hq2, Hq1, Hq0. }
  rewrite Ho3, Ho2, Ho1, Ho0. rewrite <- !app_assoc. reflexivity.
Qed.

End BusExtras.

(** X9: a write of n bytes, 1 <= n <= 4, started on an available instance
    and given the acknowledge of the address byte, n acknowledges for the
    register address and the data bytes, any further acknowledges and the
    stop condition, writes to the controller exactly: start, address byte,
    register address, the n low bytes of the data word most significant
    first, stop; it posts the registered event once, releases its vote,
    leaves the data word as it was and the instance available. *)
Theorem write_transaction_sends_word
    (p : sm_pointer) (s : statics) (c : Z)
    (device_address desired_register_address app_cb d : Z)
    (n extra_acks : nat) :
  available (pointee p s) = true ->
  lowest_energy_modes s !! I2C_EM_BLOCK = Some c -> 0 <= c < 4 ->
  (1 <= n <= 4)%nat ->
  exists s' : statics,
    (I2C.i2c_start (controller p) true device_address write d (Z.of_nat n)
       desired_register_address app_cb >>
     deliver_all p
       (AddressAcknowledged :: repeat AddressAcknowledged n
        ++ repeat AddressAcknowledged extra_acks
        ++ [StopConditionObserved])) s = Done tt s' /\
    observed s' = observed s ++
      [CMD_written (controller p) I2C_CMD_START;
       TXDATA_written (controller p)
         (Z.lor (wrap32 (Z.shiftl device_address 1)) 0);
       TXDATA_written (controller p) desired_register_address]
      ++ map (TXDATA_written (controller p)) (bytes_be d n)
      ++ [CMD_written (controller p) I2C_CMD_STOP; event_added app_cb] /\
    be_value (bytes_be d n) = d mod 256 ^ Z.of_nat n /\
    data (pointee p s') = d /\
    available (pointee p s') = true /\
    current_state (pointee p s') = initialize_device_write /\
    lowest_energy_modes s' = lowest_energy_modes s /\
    event_scheduled s' = Z.lor (event_scheduled s) app_cb.
Proof.
  intros Hav Hc Hrange Hn.
  destruct (write_transaction p s c device_address desired_register_address
              app_cb d n extra_acks Hav Hc Hrange Hn)
    as (s' & Hrun & Hp & Hv & He & _ & Ho).
  exists s'. rewrite Hp. cbn.
  split; [exact Hrun|]. split; [exact Ho|].
  split; [apply bytes_be_value_of_word|].
  repeat (split; [assumption || reflexivity|]). exact He.
Qed.

Lemma write_transaction_sends_word_witness :
  exists s' : statics,
    (I2C.i2c_start I2C1 true 85 write 4660 2 11 0 >>
     deliver_all ref_i2c1_state
       [AddressAcknowledged; AddressAcknowledged; AddressAcknowledged;
        AddressAcknowledged; StopConditionObserved]) i2c1_opened
    = Done tt s' /\
    observed s' =
      [CMD_written I2C1 I2C_CMD_START; TXDATA_written I2C1 170;
       TXDATA_written I2C1 11; TXDATA_written I2C1 18; TXDATA_written I2C1 52;
       CMD_written I2C1 I2C_CMD_STOP; event_added 0] /\
    available (i2c1_state s') = true.
Proof.
  destruct (write_transaction_sends_word ref_i2c1_state i2c1_opened
              0 85 11 0 4660 2 1)
    as (s' & Hrun & Hobs & _ & _ & Hav & _);
    [reflexivity | reflexivity | lia | lia |].
  exists s'. split; [exact Hrun|]. split; [exact Hobs | exact Hav].
Defined.

(** [i2c_start] on one of the two controllers, past the selection of the
    state machine. *)
Lemma i2c_start_on_instance (p : sm_pointer) (s : statics) (idle : bool)
    (device_address : Z) (mode : OPERATION_MODE) (data bytes_expected : Z)
    (desired_register_address app_cb : Z) :
  I2C.i2c_start (controller p) idle device_address mode data bytes_expected
    desired_register_address app_cb s
  = (do sm <- I2C.deref p;
     if negb (available sm) then spin else
     EFM_ASSERT idle >>
     I2C.sleep_block_mode I2C_EM_BLOCK >>
     I2C.assign p (with_available false) >>
     I2C.assign p (fun _ =>
       {| i2cx := controller p; device_address := device_address;
          available := false; mode := mode;
          num_of_data_bytes := bytes_expected;
          desired_register_address := desired_register_address;
          data := data; I2C_CB := app_cb;
          current_state := initialize_device_write |}) >>
     I2C.observe (CMD_written (controller p) I2C_CMD_START) >>
     I2C.observe (TXDATA_written (controller p)
                    (Z.lor (wrap32 (Z.shiftl device_address 1))
                           (OPERATION_MODE_value write)))) s.
Proof. now destruct p. Qed.

(** X10: [i2c_start] stops at an assertion when its controller is neither
    I2C0 nor I2C1, when the instance is available but the controller's STATE
    is not idle, and when four votes on [I2C_EM_BLOCK] are already
    outstanding. *)
Theorem i2c_start_assertions
    (p : sm_pointer) (s : statics) (idle : bool)
    (device_address : Z) (mode : OPERATION_MODE) (data bytes_expected : Z)
    (desired_register_address app_cb : Z) :
  I2C.i2c_start I2C_elsewhere idle device_address mode data bytes_expected
    desired_register_address app_cb s = AssertFail
  /\
  (available (pointee p s) = true ->
   I2C.i2c_start (controller p) false device_address mode data bytes_expected
     desired_register_address app_cb s = AssertFail)
  /\
  (available (pointee p s) = true ->
   lowest_energy_modes s !! I2C_EM_BLOCK = Some 4 ->
   I2C.i2c_start (controller p) true device_address mode data bytes_expected
     desired_register_address app_cb s = AssertFail).
Proof.
  split; [reflexivity|]. split.
  - intros Hav. rewrite i2c_start_on_instance.
    unfold I2C.deref, bind, EFM_ASSERT. now rewrite Hav.
  - intros Hav Hfull. rewrite i2c_start_on_instance.
    unfold I2C.deref, I2C.sleep_block_mode, zoom, bind, EFM_ASSERT.
    rewrite Hav. cbn [negb].
    rewrite (sleep_block_mode_full _ 4 _ Hfull); [reflexivity|].
    unfold INT_MAX. change (2 ^ 31) with 2147483648. lia.
Qed.

Lemma i2c_start_assertions_witness :
  I2C.i2c_start I2C1 false 85 read 0 2 19 8 i2c1_opened = AssertFail /\
  I2C.i2c_start I2C1 true 85 read 0 2 19 8
    (with_lowest_energy_modes [0; 0; 4; 0; 0] i2c1_opened) = AssertFail.
Proof.
  split.
  - destruct (i2c_start_assertions ref_i2c1_state i2c1_opened
                false 85 read 0 2 19 8) as (_ & Hbusy & _).
    apply Hbusy. reflexivity.
  - destruct (i2c_start_assertions ref_i2c1_state
                (with_lowest_energy_modes [0; 0; 4; 0; 0] i2c1_opened)
                true 85 read 0 2 19 8) as (_ & _ & Hfull).
    apply Hfull; reflexivity.
Defined.

(** X11: a transfer of zero bytes is not supported: the first data
    sub-event decrements the byte count from 0 to 0xFFFFFFFF and shifts by
    0xFFFFFFF8 bits, which is undefined; this holds for the ByteAvailable of
    a read and for the second acknowledge of a write. *)
Theorem zero_byte_transfer_undefined
    (p : sm_pointer) (s : statics) (c : Z)
    (device_address desired_register_address app_cb data0 RXDATA : Z) :
  available (pointee p s) = true ->
  lowest_energy_modes s !! I2C_EM_BLOCK = Some c -> 0 <= c < 4 ->
  (I2C.i2c_start (controller p) true device_address read data0 0
     desired_register_address app_cb >>
   deliver_all p
     [AddressAcknowledged; AddressAcknowledged; ByteAvailable RXDATA]) s
  = Undefined
  /\
  (I2C.i2c_start (controller p) true device_address write data0 0
     desired_register_address app_cb >>
   deliver_all p [AddressAcknowledged; AddressAcknowledged]) s
  = Undefined.
Proof.
  intros Hav Hc Hrange. split.
  - destruct (i2c_start_accepted p s c device_address read data0 0
                desired_register_address app_cb Hav Hc Hrange)
      as (s0 & Hstart & Hp0 & _).
    unfold bind at 1. rewrite Hstart.
    destruct (Ack_Func_initialize_device_write p s0)
      as (s1 & H1 & Hp1 & _); [now rewrite Hp0|].
    rewrite Hp0 in Hp1. cbn in Hp1.
    destruct (Ack_Func_write_desired_register p s1)
      as (s2 & H2 & Hp2 & _); [now rewrite Hp1|].
    rewrite Hp1 in Hp2. cbn in Hp2.
    rewrite (deliver_all_cons p AddressAcknowledged _ s0 s1 H1).
    rewrite (deliver_all_cons p AddressAcknowledged _ s1 s2 H2).
    cbn [deliver_all deliver]. unfold bind, I2C.Rxdatav_Func, I2C.deref, bind.
    rewrite Hp2. reflexivity.
  - destruct (i2c_start_accepted p s c device_address write data0 0
                desired_register_address app_cb Hav Hc Hrange)
      as (s0 & Hstart & Hp0 & _).
    unfold bind at 1. rewrite Hstart.
    destruct (Ack_Func_initialize_device_write p s0)
      as (s1 & H1 & Hp1 & _); [now rewrite Hp0|].
    rewrite Hp0 in Hp1. cbn in Hp1.
    rewrite (deliver_all_cons p AddressAcknowledged _ s0 s1 H1).
    cbn [deliver_all deliver]. unfold bind, I2C.Ack_Func, I2C.deref, bind.
    rewrite Hp1. reflexivity.
Qed.

Lemma zero_byte_transfer_undefined_witness :
  (I2C.i2c_start I2C1 true 85 read 0 0 19 8 >>
   deliver_all ref_i2c1_state
     [AddressAcknowledged; AddressAcknowledged; ByteAvailable 7]) i2c1_opened
  = Undefined.
Proof.
  apply (zero_byte_transfer_undefined ref_i2c1_state i2c1_opened 0 85 19 8 0 7);
    [reflexivity | reflexivity | lia].
Defined.

Lemma IRQHandler_other_instance (p q : sm_pointer)
    (int_flag : I2C.int_flag_bits) (RXDATA : Z) (s s' : statics) :
  I2C.IRQHandler p int_flag RXDATA s = Done tt s' ->
  q <> p -> pointee q s' = pointee q s.
Proof.
  intros H Hne. unfold I2C.IRQHandler in H.
  apply bind_Done in H as ([] & s1 & H1 & H).
  apply bind_Done in H as ([] & s2 & H2 & H3).
  assert (forall (b : bool) e x x',
            (if b then deliver p e else ret tt) x = Done tt x' ->
            pointee q x' = pointee q x) as Hstep.
  { intros [] e x x' Hx.
    - apply deliver_Done in Hx as [Hother _]. now apply Hother.
    - now injection Hx as <-. }
  rewrite (Hstep _ StopConditionObserved _ _ H3).
  rewrite (Hstep _ (ByteAvailable RXDATA) _ _ H2).
  exact (Hstep _ AddressAcknowledged _ _ H1).
Qed.

(** X12: whatever flags are raised, an interrupt of one controller that is
    served to the end leaves the state machine of the other controller as it
    was; and an interrupt with none of the three flags raised changes no
    static, writes neither CMD nor TXDATA and posts no event. *)
Theorem interrupt_handlers_keep_apart
    (int_flag : I2C.int_flag_bits) (RXDATA : Z) (s s' : statics) :
  (I2C.I2C0_IRQHandler int_flag RXDATA s = Done tt s' ->
   i2c1_state s' = i2c1_state s)
  /\
  (I2C.I2C1_IRQHandler int_flag RXDATA s = Done tt s' ->
   i2c0_state s' = i2c0_state s)
  /\
  (I2C.I2C_IF_ACK int_flag = false ->
   I2C.I2C_IF_RXDATAV int_flag = false ->
   I2C.I2C_IF_MSTOP int_flag = false ->
   I2C.I2C0_IRQHandler int_flag RXDATA s = Done tt s /\
   I2C.I2C1_IRQHandler int_flag RXDATA s = Done tt s).
Proof.
  split; [|split].
  - intros H.
    apply (IRQHandler_other_instance ref_i2c0_state ref_i2c1_state _ _ _ _ H).
    discriminate.
  - intros H.
    apply (IRQHandler_other_instance ref_i2c1_state ref_i2c0_state _ _ _ _ H).
    discriminate.
  - intros Ha Hr Hm.
    unfold I2C.I2C0_IRQHandler, I2C.I2C1_IRQHandler, I2C.IRQHandler.
    rewrite Ha, Hr, Hm. now split.
Qed.

Lemma interrupt_handlers_keep_apart_witness :
  I2C.I2C0_IRQHandler
    {| I2C.I2C_IF_ACK := false; I2C.I2C_IF_RXDATAV := false;
       I2C.I2C_IF_MSTOP := false |} 0 i2c1_opened = Done tt i2c1_opened.
Proof.
  apply (interrupt_handlers_keep_apart
           {| I2C.I2C_IF_ACK := false; I2C.I2C_IF_RXDATAV := false;
              I2C.I2C_IF_MSTOP := false |} 0 i2c1_opened i2c1_opened);
    reflexivity.
Defined.




(** ** The LEUART driver *)

Section LeuartFacts.

Variable LEUART_TX_EM : nat.

Implicit Types (st : LEUART.statics) (sm : LEUART.LEUART_STATE_MACHINE).

Ltac open_statics st :=
  destruct st as [v ev rx tx [l stt cnt len d cb av] obs]; cbn in *.

Ltac run_leuart :=
  unfold LEUART.LEUART0_IRQHandler, LEUART.write_data_func, LEUART.stop_func,
    LEUART.leuart_start, LEUART.strcpy_data, LEUART.data_at_count,
    LEUART.leuart_app_transmit_byte, LEUART.deref, LEUART.assign,
    LEUART.observe, LEUART.add_scheduled_event, LEUART.sleep_block_mode,
    LEUART.sleep_unblock_mode, Scheduler.add_scheduled_event, zoom, bind,
    ret, get, put, spin, undefined, EFM_ASSERT.

(** A TXBL interrupt while characters remain sends the next one. *)
Lemma TXBL_sends_character st (k : nat) (ch : Z) :
  LEUART.state (LEUART.leuart0_state_machine st) = write_UART ->
  LEUART.count (LEUART.leuart0_state_machine st) = Z.of_nat k ->
  LEUART.count (LEUART.leuart0_state_machine st)
    <> LEUART.length (LEUART.leuart0_state_machine st) ->
  LEUART.data (LEUART.leuart0_state_machine st) !! k = Some ch ->
  Z.of_nat k + 1 < 2 ^ 32 ->
  LEUART.LEUART0_IRQHandler LEUART_TX_EM true false true st =
    Done tt
      (LEUART.with_observed
         (LEUART.observed st ++
          [LEUART_TXDATA_written
             (LEUART.leuart (LEUART.leuart0_state_machine st)) (ch mod 256)])
         (LEUART.with_leuart0_state_machine
            (LEUART.with_count (Z.of_nat (S k))
               (LEUART.leuart0_state_machine st)) st)).
Proof.
  intros Hst Hcnt Hne Hch Hk. open_statics st. subst.
  run_leuart. cbn.
  destruct (Z.eqb_spec (Z.of_nat k) len) as [|_]; [contradiction|]. cbn.
  rewrite Nat2Z.id, Hch. cbn.
  rewrite wrap32_small by lia.
  replace (Z.of_nat k + 1) with (Z.of_nat (S k)) by lia. reflexivity.
Qed.

(** The TXBL interrupt after the last character ends the writing. *)
Lemma TXBL_after_last_character st :
  LEUART.state (LEUART.leuart0_state_machine st) = write_UART ->
  LEUART.count (LEUART.leuart0_state_machine st)
    = LEUART.length (LEUART.leuart0_state_machine st) ->
  LEUART.LEUART0_IRQHandler LEUART_TX_EM true false true st =
    Done tt
      (LEUART.with_observed
         (LEUART.observed st ++
          [LEUART_IEN_cleared
             (LEUART.leuart (LEUART.leuart0_state_machine st)) LEUART_IEN_TXBL;
           LEUART_IEN_set
             (LEUART.leuart (LEUART.leuart0_state_machine st)) LEUART_IEN_TXC])
         (LEUART.with_leuart0_state_machine
            (LEUART.with_state end_UART (LEUART.leuart0_state_machine st))
            st)).
Proof.
  intros Hst Hcnt. open_statics st. subst.
  run_leuart. cbn. rewrite Z.eqb_refl. cbn.
  now rewrite <- app_assoc.
Qed.

Lemma TXBL_interrupts_send (rest : list Z) : forall (k : nat) st,
  LEUART.state (LEUART.leuart0_state_machine st) = write_UART ->
  LEUART.count (LEUART.leuart0_state_machine st) = Z.of_nat k ->
  LEUART.length (LEUART.leuart0_state_machine st)
    = Z.of_nat (k + length rest) ->
  (forall i : nat, (i < length rest)%nat ->
     LEUART.data (LEUART.leuart0_state_machine st) !! (k + i)%nat
     = Some (nth i rest 0)) ->
  Z.of_nat (k + length rest) < 2 ^ 32 ->
  LEUART.TXBL_interrupts LEUART_TX_EM (length rest) st =
    Done tt
      (LEUART.with_observed
         (LEUART.observed st ++
          map (fun ch =>
                 LEUART_TXDATA_written
                   (LEUART.leuart (LEUART.leuart0_state_machine st))
                   (ch mod 256)) rest)
         (LEUART.with_leuart0_state_machine
            (LEUART.with_count
               (LEUART.length (LEUART.leuart0_state_machine st))
               (LEUART.leuart0_state_machine st)) st)).
Proof.
  induction rest as [|ch rest IH]; intros k st Hst Hcnt Hlen Hdata Hk.
  - open_statics st. subst. rewrite Nat.add_0_r, app_nil_r. reflexivity.
  - cbn [length LEUART.TXBL_interrupts]. unfold bind.
    rewrite (TXBL_sends_character st k ch Hst Hcnt).
    + rewrite IH with (k := S k).
      * f_equal. open_statics st. now rewrite <- app_assoc.
      * now open_statics st.
      * now open_statics st.
      * open_statics st. rewrite Hlen. cbn [length]. f_equal. lia.
      * intros i Hi. specialize (Hdata (S i) ltac:(simpl; lia)).
        open_statics st. replace (S (k + i))%nat with (k + S i)%nat by lia.
        exact Hdata.
      * cbn [length] in Hk. lia.
    + rewrite Hcnt, Hlen. cbn [length]. lia.
    + specialize (Hdata 0%nat ltac:(simpl; lia)).
      now rewrite Nat.add_0_r in Hdata.
    + cbn [length] in Hk. lia.
Qed.

Lemma leuart_start_accepted st (leuart : LEUART_TypeDef)
    (string : list Z) (string_len c : Z) :
  LEUART.available (LEUART.leuart0_state_machine st) = true ->
  LEUART.lowest_energy_modes st !! LEUART_TX_EM = Some c -> 0 <= c < 4 ->
  (length (c_string string)
   < length (LEUART.data (LEUART.leuart0_state_machine st)))%nat ->
  LEUART.leuart_start LEUART_TX_EM leuart false string string_len st =
    Done tt
      {| LEUART.lowest_energy_modes :=
           <[LEUART_TX_EM:=c + 1]> (LEUART.lowest_energy_modes st);
         LEUART.event_scheduled := LEUART.event_scheduled st;
         LEUART.rx_done_evt := LEUART.rx_done_evt st;
         LEUART.tx_done_evt := LEUART.tx_done_evt st;
         LEUART.leuart0_state_machine :=
           {| LEUART.leuart := leuart; LEUART.state := write_UART;
              LEUART.count := 0; LEUART.length := string_len;
              LEUART.data :=
                (c_string string ++ [0]) ++
                drop (length (c_string string ++ [0]))
                  (LEUART.data (LEUART.leuart0_state_machine st));
              LEUART.leuart_cb := LEUART.tx_done_evt st;
              LEUART.available := false |};
         LEUART.observed :=
           LEUART.observed st ++ [LEUART_IEN_set leuart LEUART_IEN_TXBL] |}.
Proof.
  intros Hav Hc Hrange Hfit. open_statics st. subst.
  run_leuart. cbn.
  rewrite (sleep_block_mode_ok _ _ _ Hc Hrange). cbn.
  destruct (Nat.leb_spec (length (c_string string ++ [0])) (length d))
    as [_|Hover]; [reflexivity|].
  rewrite length_app in Hover. cbn in Hover. lia.
Qed.

(** The TXC interrupt ends the transmission. *)
Lemma TXC_ends_transmission st (c : Z) :
  LEUART.state (LEUART.leuart0_state_machine st) = end_UART ->
  LEUART.lowest_energy_modes st !! LEUART_TX_EM = Some c ->
  0 < c <= INT_MAX ->
  LEUART.LEUART0_IRQHandler LEUART_TX_EM false true false st =
    Done tt
      {| LEUART.lowest_energy_modes :=
           <[LEUART_TX_EM:=c - 1]> (LEUART.lowest_energy_modes st);
         LEUART.event_scheduled :=
           Z.lor (LEUART.event_scheduled st)
             (LEUART.leuart_cb (LEUART.leuart0_state_machine st));
         LEUART.rx_done_evt := LEUART.rx_done_evt st;
         LEUART.tx_done_evt := LEUART.tx_done_evt st;
         LEUART.leuart0_state_machine :=
           LEUART.with_available true
             (LEUART.with_state write_UART (LEUART.leuart0_state_machine st));
         LEUART.observed :=
           LEUART.observed st ++
           [LEUART_IEN_cleared
              (LEUART.leuart (LEUART.leuart0_state_machine st)) LEUART_IEN_TXC;
            leuart_event_added
              (LEUART.leuart_cb (LEUART.leuart0_state_machine st))] |}.
Proof.
  intros Hst Hc Hrange. open_statics st. subst.
  run_leuart. cbn.
  rewrite (sleep_unblock_mode_ok _ _ _ Hc Hrange). cbn.
  now rewrite <- app_assoc.
Qed.

(** The data array after [strcpy] holds the characters of the string. *)
Lemma copied_string_lookup (string rest : list Z) (i : nat) :
  (i < length (c_string string))%nat ->
  ((c_string string ++ [0]) ++ rest) !! i = Some (nth i (c_string string) 0).
Proof.
  intros Hi. rewrite <- app_assoc, lookup_app_l by exact Hi.
  destruct (nth_lookup_or_length (c_string string) i 0); [assumption | lia].
Qed.

Lemma TXBL_interrupts_snoc (n : nat) : forall st st1,
  LEUART.TXBL_interrupts LEUART_TX_EM n st = Done tt st1 ->
  LEUART.TXBL_interrupts LEUART_TX_EM (S n) st
  = LEUART.LEUART0_IRQHandler LEUART_TX_EM true false true st1.
Proof.
  induction n as [|n IH]; intros st st1 H.
  - injection H as <-. cbn [LEUART.TXBL_interrupts]. unfold bind, ret.
    now destruct (LEUART.LEUART0_IRQHandler LEUART_TX_EM true false true st)
      as [[] ?| | |].
  - cbn [LEUART.TXBL_interrupts] in H.
    apply bind_Done in H as ([] & s0 & H0 & Hrest).
    change (LEUART.TXBL_interrupts LEUART_TX_EM (S (S n)) st)
      with ((LEUART.LEUART0_IRQHandler LEUART_TX_EM true false true >>
             LEUART.TXBL_interrupts LEUART_TX_EM (S n)) st).
    unfold bind at 1. rewrite H0. now apply IH.
Qed.

(** A whole transmission, from [ble_write] to the TXC interrupt. *)
Lemma ble_write_transmission st (string : list Z) (c : Z) :
  LEUART.available (LEUART.leuart0_state_machine st) = true ->
  LEUART.lowest_energy_modes st !! LEUART_TX_EM = Some c -> 0 <= c < 4 ->
  (length (c_string string)
   < length (LEUART.data (LEUART.leuart0_state_machine st)))%nat ->
  strlen string < 2 ^ 32 ->
  (LEUART.ble_write LEUART_TX_EM false string >>
   LEUART.TXBL_interrupts LEUART_TX_EM (S (length (c_string string))) >>
   LEUART.LEUART0_IRQHandler LEUART_TX_EM false true false) st =
    Done tt
      {| LEUART.lowest_energy_modes := LEUART.lowest_energy_modes st;
         LEUART.event_scheduled :=
           Z.lor (LEUART.event_scheduled st) (LEUART.tx_done_evt st);
         LEUART.rx_done_evt := LEUART.rx_done_evt st;
         LEUART.tx_done_evt := LEUART.tx_done_evt st;
         LEUART.leuart0_state_machine :=
           {| LEUART.leuart := LEUART0; LEUART.state := write_UART;
              LEUART.count := strlen string;
              LEUART.length := strlen string;
              LEUART.data :=
                (c_string string ++ [0]) ++
                drop (length (c_string string ++ [0]))
                  (LEUART.data (LEUART.leuart0_state_machine st));
              LEUART.leuart_cb := LEUART.tx_done_evt st;
              LEUART.available := true |};
         LEUART.observed :=
           LEUART.observed st ++
           [LEUART_IEN_set LEUART0 LEUART_IEN_TXBL] ++
           map (fun ch => LEUART_TXDATA_written LEUART0 (ch mod 256))
               (c_string string) ++
           [LEUART_IEN_cleared LEUART0 LEUART_IEN_TXBL;
            LEUART_IEN_set LEUART0 LEUART_IEN_TXC;
            LEUART_IEN_cleared LEUART0 LEUART_IEN_TXC;
            leuart_event_added (LEUART.tx_done_evt st)] |}.
Proof.
  intros Hav Hc Hrange Hfit Hsmall.
  assert (0 <= strlen string) as Hpos by (unfold strlen; lia).
  assert (LEUART_TX_EM < length (LEUART.lowest_energy_modes st))%nat as Hin
    by (eapply lookup_lt_Some, Hc).
  unfold LEUART.ble_write. rewrite wrap32_small by lia.
  unfold bind at 1.
  rewrite (leuart_start_accepted st LEUART0 string _ c Hav Hc Hrange Hfit).
  unfold bind at 1.
  match goal with
  | |- context [LEUART.TXBL_interrupts _ _ ?x] => set (st1 := x)
  end.
  pose proof (TXBL_interrupts_send (c_string string) 0 st1) as Hsend.
  rewrite (TXBL_interrupts_snoc _ st1 _ (Hsend eq_refl eq_refl eq_refl
             (fun i Hi => copied_string_lookup string _ i Hi) Hsmall)).
  subst st1. cbn [LEUART.leuart0_state_machine LEUART.observed LEUART.leuart
                  LEUART.length].
  rewrite TXBL_after_last_character by reflexivity.
  rewrite (TXC_ends_transmission _ (c + 1)).
  - unfold LEUART.with_observed, LEUART.with_leuart0_state_machine,
      LEUART.with_state, LEUART.with_count, LEUART.with_available.
    cbn [LEUART.leuart0_state_machine LEUART.observed LEUART.leuart
         LEUART.lowest_energy_modes LEUART.event_scheduled LEUART.rx_done_evt
         LEUART.tx_done_evt LEUART.state LEUART.count LEUART.length
         LEUART.data LEUART.leuart_cb LEUART.available].
    rewrite list_insert_insert_eq. replace (c + 1 - 1) with c by lia.
    rewrite (list_insert_id _ _ _ Hc). rewrite <- !app_assoc. reflexivity.
  - reflexivity.
  - cbn. now apply list_lookup_insert_eq.
  - unfold INT_MAX. change (2 ^ 31) with 2147483648. lia.
Qed.

Lemma leuart_start_Done st st1 (leuart : LEUART_TypeDef) (SYNCBUSY : bool)
    (string : list Z) (string_len : Z) :
  LEUART.leuart_start LEUART_TX_EM leuart SYNCBUSY string string_len st
    = Done tt st1 ->
  LEUART.available (LEUART.leuart0_state_machine st) = true /\
  LEUART.available (LEUART.leuart0_state_machine st1) = false /\
  exists c, LEUART.lowest_energy_modes st !! LEUART_TX_EM = Some c /\
            c + 1 < 5 /\
            LEUART.lowest_energy_modes st1
            = <[LEUART_TX_EM:=c + 1]> (LEUART.lowest_energy_modes st).
Proof.
  intros H. unfold LEUART.leuart_start in H.
  apply bind_Done in H as (sm & s0 & Hsm & H).
  unfold LEUART.deref in Hsm. injection Hsm as <- <-.
  destruct (LEUART.available (LEUART.leuart0_state_machine st)) eqn:Hav;
    [|discriminate].
  cbn [negb] in H. destruct SYNCBUSY; [discriminate|].
  split; [reflexivity|].
  apply bind_Done in H as ([] & s1 & H1 & H).
  unfold LEUART.assign in H1. injection H1 as <-.
  apply bind_Done in H as ([] & s2 & H2 & H).
  unfold LEUART.sleep_block_mode, zoom in H2.
  destruct (Sleep.sleep_block_mode LEUART_TX_EM _) as [[] w| | |] eqn:Hvote;
    try discriminate.
  injection H2 as <-.
  apply sleep_block_mode_Done in Hvote as (c & Hc & Hlt & ->).
  apply bind_Done in H as (s3 & s4 & H3 & H).
  unfold get in H3. injection H3 as <- <-.
  apply bind_Done in H as ([] & s5 & H5 & H).
  unfold LEUART.assign in H5. injection H5 as <-.
  apply bind_Done in H as ([] & s6 & H6 & H).
  unfold LEUART.observe in H. injection H as <-.
  unfold LEUART.strcpy_data, LEUART.deref, LEUART.assign, bind, undefined
    in H6.
  match type of H6 with
  | context [if ?b then _ else _] => destruct b
  end; [|discriminate].
  injection H6 as <-. split; [reflexivity|].
  exists c. cbn in Hc |- *. now rewrite Hc.
Qed.

(** A TXBL interrupt changes neither [available] nor the votes. *)
Lemma TXBL_interrupt_keeps_available st st1 (IF_TXBL : bool) :
  LEUART.LEUART0_IRQHandler LEUART_TX_EM true false IF_TXBL st = Done tt st1 ->
  LEUART.available (LEUART.leuart0_state_machine st1)
  = LEUART.available (LEUART.leuart0_state_machine st) /\
  LEUART.lowest_energy_modes st1 = LEUART.lowest_energy_modes st.
Proof.
  open_statics st. run_leuart. cbn.
  destruct stt; [|discriminate].
  destruct (cnt =? len); cbn.
  - intros [= <-]. now split.
  - destruct (d !! Z.to_nat cnt); [|discriminate]. cbn.
    destruct IF_TXBL; [|discriminate]. intros [= <-]. now split.
Qed.

Lemma TXBL_interrupts_keep_available (k : nat) : forall st st1,
  LEUART.TXBL_interrupts LEUART_TX_EM k st = Done tt st1 ->
  LEUART.available (LEUART.leuart0_state_machine st1)
  = LEUART.available (LEUART.leuart0_state_machine st) /\
  LEUART.lowest_energy_modes st1 = LEUART.lowest_energy_modes st.
Proof.
  induction k as [|k IH]; intros st st1 H.
  - injection H as <-. now split.
  - cbn [LEUART.TXBL_interrupts] in H.
    apply bind_Done in H as ([] & s0 & H0 & Hrest).
    apply TXBL_interrupt_keeps_available in H0 as [Ha Hv].
    destruct (IH _ _ Hrest) as [Ha' Hv']. split; congruence.
Qed.

(** [strcpy] past the end of the data array. *)
Lemma leuart_start_overflow st (leuart : LEUART_TypeDef)
    (string : list Z) (string_len c : Z) :
  LEUART.available (LEUART.leuart0_state_machine st) = true ->
  LEUART.lowest_energy_modes st !! LEUART_TX_EM = Some c -> 0 <= c < 4 ->
  (length (LEUART.data (LEUART.leuart0_state_machine st))
   <= length (c_string string))%nat ->
  LEUART.leuart_start LEUART_TX_EM leuart false string string_len st
  = Undefined.
Proof.
  intros Hav Hc Hrange Hover. open_statics st. subst.
  run_leuart. cbn.
  rewrite (sleep_block_mode_ok _ _ _ Hc Hrange). cbn.
  destruct (Nat.leb_spec (length (c_string string ++ [0])) (length d))
    as [Hfit|_]; [|reflexivity].
  rewrite length_app in Hfit. cbn in Hfit. lia.
Qed.

End LeuartFacts.

(** X14: [ble_write] of a string that fits the data array (with its
    terminating NUL), on an available driver, followed by one TXBL interrupt
    per character, one more TXBL interrupt and the TXC interrupt: the
    characters of the string go to TXDATA in order, none else; the TXBL and
    TXC interrupts are enabled and disabled in turn; the event [tx_done_evt]
    is posted once, the vote on [LEUART_TX_EM] is released and the driver is
    available again. *)
Theorem ble_write_transmits_string
    (LEUART_TX_EM : nat) (st : LEUART.statics) (string : list Z) (c : Z) :
  LEUART.available (LEUART.leuart0_state_machine st) = true ->
  LEUART.lowest_energy_modes st !! LEUART_TX_EM = Some c -> 0 <= c < 4 ->
  (length (c_string string)
   < length (LEUART.data (LEUART.leuart0_state_machine st)))%nat ->
  strlen string < 2 ^ 32 ->
  exists st' : LEUART.statics,
    (LEUART.ble_write LEUART_TX_EM false string >>
     LEUART.TXBL_interrupts LEUART_TX_EM (S (length (c_string string))) >>
     LEUART.LEUART0_IRQHandler LEUART_TX_EM false true false) st
    = Done tt st' /\
    LEUART.observed st' =
      LEUART.observed st ++
      [LEUART_IEN_set LEUART0 LEUART_IEN_TXBL] ++
      map (fun ch => LEUART_TXDATA_written LEUART0 (ch mod 256))
          (c_string string) ++
      [LEUART_IEN_cleared LEUART0 LEUART_IEN_TXBL;
       LEUART_IEN_set LEUART0 LEUART_IEN_TXC;
       LEUART_IEN_cleared LEUART0 LEUART_IEN_TXC;
       leuart_event_added (LEUART.tx_done_evt st)] /\
    LEUART.available (LEUART.leuart0_state_machine st') = true /\
    LEUART.state (LEUART.leuart0_state_machine st') = write_UART /\
    LEUART.lowest_energy_modes st' = LEUART.lowest_energy_modes st /\
    LEUART.event_scheduled st'
    = Z.lor (LEUART.event_scheduled st) (LEUART.tx_done_evt st).
Proof.
  intros Hav Hc Hrange Hfit Hsmall.
  eexists. split.
  - apply (ble_write_transmission LEUART_TX_EM st string c); assumption.
  - cbn. repeat split; reflexivity.
Qed.

Lemma ble_write_transmits_string_witness :
  exists st' : LEUART.statics,
    (LEUART.ble_write 2 false [79; 75; 0; 33] >>
     LEUART.TXBL_interrupts 2 3 >>
     LEUART.LEUART0_IRQHandler 2 false true false)
      {| LEUART.lowest_energy_modes := [0; 0; 0; 1; 0];
         LEUART.event_scheduled := 0; LEUART.rx_done_evt := 0;
         LEUART.tx_done_evt := 32;
         LEUART.leuart0_state_machine :=
           {| LEUART.leuart := LEUART_elsewhere; LEUART.state := write_UART;
              LEUART.count := 0; LEUART.length := 0;
              LEUART.data := [0; 0; 0; 0];
              LEUART.leuart_cb := 0; LEUART.available := true |};
         LEUART.observed := [] |} = Done tt st' /\
    LEUART.observed st' =
      [LEUART_IEN_set LEUART0 LEUART_IEN_TXBL;
       LEUART_TXDATA_written LEUART0 79; LEUART_TXDATA_written LEUART0 75;
       LEUART_IEN_cleared LEUART0 LEUART_IEN_TXBL;
       LEUART_IEN_set LEUART0 LEUART_IEN_TXC;
       LEUART_IEN_cleared LEUART0 LEUART_IEN_TXC;
       leuart_event_added 32] /\
    LEUART.event_scheduled st' = 32.
Proof.
  destruct (ble_write_transmits_string 2
              {| LEUART.lowest_energy_modes := [0; 0; 0; 1; 0];
                 LEUART.event_scheduled := 0; LEUART.rx_done_evt := 0;
                 LEUART.tx_done_evt := 32;
                 LEUART.leuart0_state_machine :=
                   {| LEUART.leuart := LEUART_elsewhere;
                      LEUART.state := write_UART;
                      LEUART.count := 0; LEUART.length := 0;
                      LEUART.data := [0; 0; 0; 0];
                      LEUART.leuart_cb := 0; LEUART.available := true |};
                 LEUART.observed := [] |} [79; 75; 0; 33] 0)
    as (st' & Hrun & Hobs & _ & _ & _ & Hev);
    [reflexivity | reflexivity | lia | simpl; lia | reflexivity |].
  exists st'. split; [exact Hrun|]. split; [exact Hobs | exact Hev].
Defined.

(** X15: an interrupt out of turn is a fatal error: a TXBL interrupt while
    the driver waits for TXC (state [end]), whatever else is flagged, and a
    TXC interrupt while the driver still writes (state [write_UART]), end in
    EFM_ASSERT(false). *)
Theorem leuart_interrupt_out_of_turn_asserts
    (LEUART_TX_EM : nat) (st : LEUART.statics)
    (LEUART_IF_TXC IF_TXBL : bool) :
  (LEUART.state (LEUART.leuart0_state_machine st) = end_UART ->
   LEUART.LEUART0_IRQHandler LEUART_TX_EM true LEUART_IF_TXC IF_TXBL st
   = AssertFail) /\
  (LEUART.state (LEUART.leuart0_state_machine st) = write_UART ->
   LEUART.LEUART0_IRQHandler LEUART_TX_EM false true IF_TXBL st
   = AssertFail).
Proof.
  destruct st as [v ev rx tx [l stt cnt len d cb av] obs]. cbn.
  split; intros ->; reflexivity.
Qed.

Lemma leuart_interrupt_out_of_turn_asserts_witness :
  LEUART.LEUART0_IRQHandler 2 true false true
    {| LEUART.lowest_energy_modes := [0; 0; 1; 0; 0];
       LEUART.event_scheduled := 0; LEUART.rx_done_evt := 0;
       LEUART.tx_done_evt := 32;
       LEUART.leuart0_state_machine :=
         {| LEUART.leuart := LEUART0; LEUART.state := end_UART;
            LEUART.count := 2; LEUART.length := 2;
            LEUART.data := [79; 75; 0; 0];
            LEUART.leuart_cb := 32; LEUART.available := false |};
       LEUART.observed := [] |} = AssertFail /\
  LEUART.LEUART0_IRQHandler 2 false true true
    {| LEUART.lowest_energy_modes := [0; 0; 1; 0; 0];
       LEUART.event_scheduled := 0; LEUART.rx_done_evt := 0;
       LEUART.tx_done_evt := 32;
       LEUART.leuart0_state_machine :=
         {| LEUART.leuart := LEUART0; LEUART.state := write_UART;
            LEUART.count := 1; LEUART.length := 2;
            LEUART.data := [79; 75; 0; 0];
            LEUART.leuart_cb := 32; LEUART.available := false |};
       LEUART.observed := [] |} = AssertFail.
Proof.
  split.
  - apply (leuart_interrupt_out_of_turn_asserts 2
             {| LEUART.lowest_energy_modes := [0; 0; 1; 0; 0];
                LEUART.event_scheduled := 0; LEUART.rx_done_evt := 0;
                LEUART.tx_done_evt := 32;
                LEUART.leuart0_state_machine :=
                  {| LEUART.leuart := LEUART0; LEUART.state := end_UART;
                     LEUART.count := 2; LEUART.length := 2;
                     LEUART.data := [79; 75; 0; 0];
                     LEUART.leuart_cb := 32; LEUART.available := false |};
                LEUART.observed := [] |} false true).
    reflexivity.
  - apply (leuart_interrupt_out_of_turn_asserts 2
             {| LEUART.lowest_energy_modes := [0; 0; 1; 0; 0];
                LEUART.event_scheduled := 0; LEUART.rx_done_evt := 0;
                LEUART.tx_done_evt := 32;
                LEUART.leuart0_state_machine :=
                  {| LEUART.leuart := LEUART0; LEUART.state := write_UART;
                     LEUART.count := 1; LEUART.length := 2;
                     LEUART.data := [79; 75; 0; 0];
                     LEUART.leuart_cb := 32; LEUART.available := false |};
                LEUART.observed := [] |} false true).
    reflexivity.
Defined.

(** X16: [leuart_start] copies the string with [strcpy], without a bound: a
    string with at least as many characters as the data array has elements
    does not fit with its terminating NUL, and the call (and so [ble_write]
    of such a string) has undefined behaviour. *)
Theorem leuart_start_string_too_long
    (LEUART_TX_EM : nat) (st : LEUART.statics) (leuart : LEUART_TypeDef)
    (string : list Z) (string_len c : Z) :
  LEUART.available (LEUART.leuart0_state_machine st) = true ->
  LEUART.lowest_energy_modes st !! LEUART_TX_EM = Some c -> 0 <= c < 4 ->
  (length (LEUART.data (LEUART.leuart0_state_machine st))
   <= length (c_string string))%nat ->
  LEUART.leuart_start LEUART_TX_EM leuart false string string_len st
  = Undefined /\
  LEUART.ble_write LEUART_TX_EM false string st = Undefined.
Proof.
  intros Hav Hc Hrange Hover. split.
  - now apply (leuart_start_overflow LEUART_TX_EM st leuart string _ c).
  - unfold LEUART.ble_write.
    now apply (leuart_start_overflow LEUART_TX_EM st LEUART0 string _ c).
Qed.

Lemma leuart_start_string_too_long_witness :
  LEUART.leuart_start 2 LEUART0 false [72; 69; 76; 76; 79; 0] 5
    {| LEUART.lowest_energy_modes := [0; 0; 0; 0; 0];
       LEUART.event_scheduled := 0; LEUART.rx_done_evt := 0;
       LEUART.tx_done_evt := 32;
       LEUART.leuart0_state_machine :=
         {| LEUART.leuart := LEUART0; LEUART.state := write_UART;
            LEUART.count := 0; LEUART.length := 0;
            LEUART.data := [0; 0; 0; 0; 0];
            LEUART.leuart_cb := 0; LEUART.available := true |};
       LEUART.observed := [] |} = Undefined /\
  LEUART.ble_write 2 false [72; 69; 76; 76; 79; 0]
    {| LEUART.lowest_energy_modes := [0; 0; 0; 0; 0];
       LEUART.event_scheduled := 0; LEUART.rx_done_evt := 0;
       LEUART.tx_done_evt := 32;
       LEUART.leuart0_state_machine :=
         {| LEUART.leuart := LEUART0; LEUART.state := write_UART;
            LEUART.count := 0; LEUART.length := 0;
            LEUART.data := [0; 0; 0; 0; 0];
            LEUART.leuart_cb := 0; LEUART.available := true |};
       LEUART.observed := [] |} = Undefined.
Proof.
  apply (leuart_start_string_too_long 2
           {| LEUART.lowest_energy_modes := [0; 0; 0; 0; 0];
              LEUART.event_scheduled := 0; LEUART.rx_done_evt := 0;
              LEUART.tx_done_evt := 32;
              LEUART.leuart0_state_machine :=
                {| LEUART.leuart := LEUART0; LEUART.state := write_UART;
                   LEUART.count := 0; LEUART.length := 0;
                   LEUART.data := [0; 0; 0; 0; 0];
                   LEUART.leuart_cb := 0; LEUART.available := true |};
              LEUART.observed := [] |} LEUART0 [72; 69; 76; 76; 79; 0] 5 0);
    [reflexivity | reflexivity | lia | simpl; lia].
Defined.

(** X17: transmissions do not overlap: after a [leuart_start] that returned,
    and any number of TXBL interrupts, another [leuart_start] does not
    return: it stays in [while(!leuart0_state_machine.available)]. *)
Theorem leuart_start_waits_for_transmission
    (LEUART_TX_EM : nat) (st st1 st2 : LEUART.statics)
    (leuart leuart' : LEUART_TypeDef) (SYNCBUSY SYNCBUSY' : bool)
    (string string' : list Z) (string_len string_len' : Z) (k : nat) :
  LEUART.leuart_start LEUART_TX_EM leuart SYNCBUSY string string_len st
    = Done tt st1 ->
  LEUART.TXBL_interrupts LEUART_TX_EM k st1 = Done tt st2 ->
  LEUART.leuart_start LEUART_TX_EM leuart' SYNCBUSY' string' string_len' st2
    = Spin.
Proof.
  intros Hstart Hk.
  apply leuart_start_Done in Hstart as (_ & Hbusy & _).
  apply TXBL_interrupts_keep_available in Hk as [Hav _].
  rewrite Hbusy in Hav.
  unfold LEUART.leuart_start, bind, LEUART.deref. now rewrite Hav.
Qed.

Lemma leuart_start_waits_for_transmission_witness :
  LEUART.leuart_start 2 LEUART0 false [33; 0] 1
    {| LEUART.lowest_energy_modes := [0; 0; 1; 0; 0];
       LEUART.event_scheduled := 0; LEUART.rx_done_evt := 0;
       LEUART.tx_done_evt := 32;
       LEUART.leuart0_state_machine :=
         {| LEUART.leuart := LEUART0; LEUART.state := write_UART;
            LEUART.count := 1; LEUART.length := 2;
            LEUART.data := [79; 75; 0; 0];
            LEUART.leuart_cb := 32; LEUART.available := false |};
       LEUART.observed :=
         [LEUART_IEN_set LEUART0 LEUART_IEN_TXBL;
          LEUART_TXDATA_written LEUART0 79] |} = Spin.
Proof.
  apply (leuart_start_waits_for_transmission 2
           {| LEUART.lowest_energy_modes := [0; 0; 0; 0; 0];
              LEUART.event_scheduled := 0; LEUART.rx_done_evt := 0;
              LEUART.tx_done_evt := 32;
              LEUART.leuart0_state_machine :=
                {| LEUART.leuart := LEUART0; LEUART.state := write_UART;
                   LEUART.count := 0; LEUART.length := 0;
                   LEUART.data := [0; 0; 0; 0];
                   LEUART.leuart_cb := 0; LEUART.available := true |};
              LEUART.observed := [] |}
           {| LEUART.lowest_energy_modes := [0; 0; 1; 0; 0];
              LEUART.event_scheduled := 0; LEUART.rx_done_evt := 0;
              LEUART.tx_done_evt := 32;
              LEUART.leuart0_state_machine :=
                {| LEUART.leuart := LEUART0; LEUART.state := write_UART;
                   LEUART.count := 0; LEUART.length := 2;
                   LEUART.data := [79; 75; 0; 0];
                   LEUART.leuart_cb := 32; LEUART.available := false |};
              LEUART.observed := [LEUART_IEN_set LEUART0 LEUART_IEN_TXBL] |}
           _ LEUART0 LEUART0 false false [79; 75; 0] [33; 0] 2 1 1%nat);
    reflexivity.
Defined.

(** X18: a transmission in flight holds its vote: after a [leuart_start]
    that returned (on counters in [0, 5)), and any number of TXBL interrupts,
    [current_block_energy_mode] returns a mode not deeper than
    [LEUART_TX_EM]. *)
Theorem transmission_blocks_LEUART_TX_EM
    (MAX_ENERGY_MODES LEUART_TX_EM : nat) (st st1 st2 : LEUART.statics)
    (leuart : LEUART_TypeDef) (SYNCBUSY : bool)
    (string : list Z) (string_len : Z) (k : nat) :
  length (LEUART.lowest_energy_modes st) = MAX_ENERGY_MODES ->
  Forall counter_ok (LEUART.lowest_energy_modes st) ->
  LEUART.leuart_start LEUART_TX_EM leuart SYNCBUSY string string_len st
    = Done tt st1 ->
  LEUART.TXBL_interrupts LEUART_TX_EM k st1 = Done tt st2 ->
  exists r : nat,
    Sleep.current_block_energy_mode MAX_ENERGY_MODES
      (LEUART.lowest_energy_modes st2)
    = Done r (LEUART.lowest_energy_modes st2) /\
    (r <= LEUART_TX_EM)%nat.
Proof.
  intros Hlen Hok Hstart Hk.
  apply leuart_start_Done in Hstart as (_ & _ & c & Hc & _ & Hv1).
  apply TXBL_interrupts_keep_available in Hk as [_ Hv2].
  rewrite Hv2, Hv1.
  destruct (current_block_energy_mode_spec MAX_ENERGY_MODES
              (<[LEUART_TX_EM:=c + 1]> (LEUART.lowest_energy_modes st)))
    as (r & Hr & Hshallow).
  { now rewrite length_insert. }
  exists r. split; [exact Hr|].
  apply (shallowest_blocked_below MAX_ENERGY_MODES _ r LEUART_TX_EM (c + 1)
           Hshallow).
  - apply list_lookup_insert_eq. now apply lookup_lt_Some in Hc.
  - pose proof (proj1 (Forall_lookup _ _) Hok _ _ Hc) as Hrange.
    unfold counter_ok in Hrange. lia.
Qed.

Lemma transmission_blocks_LEUART_TX_EM_witness :
  exists r : nat,
    Sleep.current_block_energy_mode 5 [0; 0; 1; 1; 0]
    = Done r [0; 0; 1; 1; 0] /\ (r <= 2)%nat.
Proof.
  apply (transmission_blocks_LEUART_TX_EM 5 2
           {| LEUART.lowest_energy_modes := [0; 0; 0; 1; 0];
              LEUART.event_scheduled := 0; LEUART.rx_done_evt := 0;
              LEUART.tx_done_evt := 32;
              LEUART.leuart0_state_machine :=
                {| LEUART.leuart := LEUART0; LEUART.state := write_UART;
                   LEUART.count := 0; LEUART.length := 0;
                   LEUART.data := [0; 0; 0; 0];
                   LEUART.leuart_cb := 0; LEUART.available := true |};
              LEUART.observed := [] |}
           {| LEUART.lowest_energy_modes := [0; 0; 1; 1; 0];
              LEUART.event_scheduled := 0; LEUART.rx_done_evt := 0;
              LEUART.tx_done_evt := 32;
              LEUART.leuart0_state_machine :=
                {| LEUART.leuart := LEUART0; LEUART.state := write_UART;
                   LEUART.count := 0; LEUART.length := 2;
                   LEUART.data := [79; 75; 0; 0];
                   LEUART.leuart_cb := 32; LEUART.available := false |};
              LEUART.observed := [LEUART_IEN_set LEUART0 LEUART_IEN_TXBL] |}
           {| LEUART.lowest_energy_modes := [0; 0; 1; 1; 0];
              LEUART.event_scheduled := 0; LEUART.rx_done_evt := 0;
              LEUART.tx_done_evt := 32;
              LEUART.leuart0_state_machine :=
                {| LEUART.leuart := LEUART0; LEUART.state := write_UART;
                   LEUART.count := 1; LEUART.length := 2;
                   LEUART.data := [79; 75; 0; 0];
                   LEUART.leuart_cb := 32; LEUART.available := false |};
              LEUART.observed :=
                [LEUART_IEN_set LEUART0 LEUART_IEN_TXBL;
                 LEUART_TXDATA_written LEUART0 79] |}
           LEUART0 false [79; 75; 0] 2 1%nat).
  - reflexivity.
  - repeat constructor; unfold counter_ok; lia.
  - reflexivity.
  - reflexivity.
Defined.
